(** * OmniTool: the TOTP engine, the otpauth parser and the account registry

    A shallow embedding of [modules/totp.js] and of the storage module
    (the Chrome storage wrapper holding the account list), followed by the
    properties of the specification that concern them.

    Conventions of the embedding.
    - A JavaScript number that holds an integer is a [Z]; the places where
      the source relies on 32-bit wrap-around ([<<], [|], [>>>]) spell the
      wrap-around out with [toInt32] and [toUint32].  Numbers stay exact:
      the model covers the safe-integer range of the source.  Where the
      source can also meet NaN or an infinity (the result of [parseInt],
      a division by zero, the [digits] and [period] of a caller) the
      number is a [number].
    - A JavaScript string is a [string] of 8-bit characters read as ASCII
      text (secrets and provisioning URIs are ASCII); case mapping and the
      whitespace class are the ASCII ones.
    - A thrown [Error] or a rejected promise is the [Throw] branch of
      [completion]; the platform primitives the source calls ([URL],
      [crypto.subtle]) are modelled next to the function that calls them.
    - A plain object used as a record with open fields (an account) is a
      [gmap string jsval]; the stored array of accounts is a [list]. *)

From Stdlib Require Import ZArith Lia List Ascii String Bool.
From stdpp Require Import gmap strings list.
Import ListNotations.

Local Open Scope string_scope.
Local Open Scope Z_scope.

#[local] Arguments String.append !_ _ / : simpl nomatch.

(** ** JavaScript values and built-ins used by the source *)

Module JS.

(** Errors the modelled code can raise.  The first four carry the messages
    written in the source; the last four are raised by the platform. *)
Inductive error : Type :=
| InvalidBase32Character (char : ascii)  (* `Invalid Base32 character: ${char}` *)
| InvalidProtocol                        (* 'Invalid protocol' *)
| InvalidOtpAuthUri                      (* 'Invalid OTP Auth URI' *)
| InvalidDataFormat                      (* 'Invalid data format' *)
| TypeError                              (* new URL(..) on a malformed input, method call on a non-array *)
| URIError                               (* decodeURIComponent on a malformed escape *)
| DataError                              (* crypto.subtle.importKey on an empty HMAC key *)
| RangeError.                            (* 'Invalid string length': a string longer than the engine builds *)

(** Outcome of a call (or of the promise it returns). *)
Inductive completion (A : Type) : Type :=
| Return (a : A)
| Throw (e : error).
Arguments Return {A} a.
Arguments Throw {A} e.

Definition bindC {A B} (c : completion A) (k : A -> completion B) : completion B :=
  match c with
  | Return a => k a
  | Throw e => Throw e
  end.

(** [try { c } catch (error) { throw h }] *)
Definition tryCatch {A} (c : completion A) (h : error) : completion A :=
  match c with
  | Return a => Return a
  | Throw _ => Throw h
  end.

(** ToInt32 and ToUint32 on an integer. *)
Definition toUint32 (x : Z) : Z := x mod 2 ^ 32.
Definition toInt32 (x : Z) : Z := (x + 2 ^ 31) mod 2 ^ 32 - 2 ^ 31.

(** The 32-bit operators of the language. *)
Definition shl (x n : Z) : Z := toInt32 (Z.shiftl (toInt32 x) (n mod 32)).
Definition ushr (x n : Z) : Z := Z.shiftr (toUint32 x) (n mod 32).
Definition bitand (x y : Z) : Z := toInt32 (Z.land (toInt32 x) (toInt32 y)).
Definition bitor (x y : Z) : Z := toInt32 (Z.lor (toInt32 x) (toInt32 y)).

(** A number that is an integer, not-a-number (as [parseInt] gives on a
    text without digits) or an infinity (as a division by zero gives). *)
Inductive number : Type :=
| Int (z : Z)
| NaN
| Infinity (positive : bool).

(** ToLength on a number: NaN and what is below 0 give 0, what is above
    [2^53 - 1] gives [2^53 - 1]. *)
Definition toLength (n : number) : Z :=
  match n with
  | Int z => Z.min (Z.max z 0) (2 ^ 53 - 1)
  | NaN => 0
  | Infinity positive => if positive then 2 ^ 53 - 1 else 0
  end.

(** The longest string the engine of the browser builds: [2^29 - 24]
    code units. *)
Definition maxStringLength : Z := 536870888.

(** Primitive values stored in object fields. *)
Inductive jsval : Type :=
| JStr (s : string)
| JNum (z : Z)
| JBool (b : bool)
| JNull.

#[global] Instance jsval_eq_dec : EqDecision jsval.
Proof. solve_decision. Defined.

(** Truthiness of a field read; [None] is [undefined]. *)
Definition truthy (v : option jsval) : bool :=
  match v with
  | None => false
  | Some (JStr s) => negb (String.eqb s "")
  | Some (JNum z) => negb (z =? 0)
  | Some (JBool b) => b
  | Some JNull => false
  end.

(** *** Strings *)

Definition code (c : ascii) : Z := Z.of_nat (nat_of_ascii c).

(** The class [\s] below code unit 128: TAB, LF, VT, FF, CR and SPACE. *)
Definition isWhiteSpace (c : ascii) : bool :=
  let n := code c in ((9 <=? n) && (n <=? 13)) || (n =? 32).

Definition upperChar (c : ascii) : ascii :=
  let n := code c in
  if (97 <=? n) && (n <=? 122) then ascii_of_nat (Z.to_nat (n - 32)) else c.

(** [s.toUpperCase()] *)
Fixpoint toUpperCase (s : string) : string :=
  match s with
  | EmptyString => EmptyString
  | String c r => String (upperChar c) (toUpperCase r)
  end.

(** [s.replace(/\s/g, '')] *)
Fixpoint removeWhiteSpace (s : string) : string :=
  match s with
  | EmptyString => EmptyString
  | String c r =>
      if isWhiteSpace c then removeWhiteSpace r else String c (removeWhiteSpace r)
  end.

(** [s.replace(/=+$/, '')]: the run of ['='] that ends the string goes. *)
Fixpoint removePadding (s : string) : string :=
  match s with
  | EmptyString => EmptyString
  | String c r =>
      let r' := removePadding r in
      if Ascii.eqb c "=" && String.eqb r' "" then EmptyString else String c r'
  end.

(** [s.indexOf(c)] for a single character: first position, or -1. *)
Fixpoint indexOf (s : string) (c : ascii) : Z :=
  match s with
  | EmptyString => -1
  | String d r =>
      if Ascii.eqb d c then 0
      else let i := indexOf r c in if i =? -1 then -1 else 1 + i
  end.

(** [s.includes(c)] *)
Definition includes (s : string) (c : ascii) : bool := negb (indexOf s c =? -1).

(** [s.split(c)]: the pieces between the occurrences of [c]. *)
Fixpoint split (c : ascii) (s : string) : list string :=
  match s with
  | EmptyString => [EmptyString]
  | String d r =>
      if Ascii.eqb d c then EmptyString :: split c r
      else match split c r with
           | p :: ps => String d p :: ps
           | [] => [String d EmptyString]
           end
  end.

(** [s.slice(n)] for [n >= 0] *)
Fixpoint slice (n : nat) (s : string) : string :=
  match n, s with
  | O, _ => s
  | S _, EmptyString => EmptyString
  | S m, String _ r => slice m r
  end.

Fixpoint repeatChar (c : ascii) (n : nat) : string :=
  match n with
  | O => EmptyString
  | S m => String c (repeatChar c m)
  end.

(** [s.padStart(n, c)]: the target length is [ToLength(n)]; one that the
    length of [s] reaches (a negative one and NaN read 0) leaves [s] as it
    is; one above the longest string of the engine is a RangeError;
    otherwise [c] is repeated in front of [s] up to the target length. *)
Definition padStart (s : string) (n : number) (c : ascii) : completion string :=
  let intMaxLength := toLength n in
  let stringLength := Z.of_nat (String.length s) in
  if intMaxLength <=? stringLength then Return s
  else if maxStringLength <? intMaxLength then Throw RangeError
  else Return (String.append (repeatChar c (Z.to_nat (intMaxLength - stringLength))) s).

Definition digitChar (d : Z) : ascii := ascii_of_nat (Z.to_nat (48 + d)).

(** Decimal digits of a non-negative integer, most significant first;
    [fuel] bounds the number of digits produced. *)
Fixpoint digitsOf (fuel : nat) (n : Z) (acc : string) : string :=
  match fuel with
  | O => acc
  | S f =>
      let acc' := String (digitChar (n mod 10)) acc in
      if n / 10 =? 0 then acc' else digitsOf f (n / 10) acc'
  end.

(** [n.toString()] for an integer: a value below [2^k] has at most [k]
    decimal digits, so [Z.log2 |n| + 1] steps are enough. *)
Definition toString (n : Z) : string :=
  let m := Z.abs n in
  let body := digitsOf (S (Z.to_nat (Z.log2 m))) m EmptyString in
  if n <? 0 then String "-" body else body.

Definition isDigit (c : ascii) : bool := (48 <=? code c) && (code c <=? 57).

(** Value of a run of decimal digits read left to right. *)
Fixpoint decimalValue (acc : Z) (s : string) : Z :=
  match s with
  | EmptyString => acc
  | String c r => decimalValue (10 * acc + (code c - 48)) r
  end.

Fixpoint takeDigits (s : string) : string :=
  match s with
  | EmptyString => EmptyString
  | String c r => if isDigit c then String c (takeDigits r) else EmptyString
  end.

Fixpoint trimStart (s : string) : string :=
  match s with
  | EmptyString => EmptyString
  | String c r => if isWhiteSpace c then trimStart r else s
  end.

(** [parseInt(s, 10)]: leading white space goes, an optional sign is read,
    then the longest run of decimal digits; no digit at all gives NaN.
    Nothing is thrown, whatever the text. *)
Definition parseInt10 (s : string) : number :=
  let t := trimStart s in
  let '(sign, u) :=
    match t with
    | String "-" r => (-1, r)
    | String "+" r => (1, r)
    | _ => (1, t)
    end in
  match takeDigits u with
  | EmptyString => NaN
  | ds => Int (sign * decimalValue 0 ds)
  end.

(** *** Percent escapes *)

Definition hexValue (c : ascii) : option Z :=
  let n := code c in
  if (48 <=? n) && (n <=? 57) then Some (n - 48)
  else if (65 <=? n) && (n <=? 70) then Some (n - 55)
  else if (97 <=? n) && (n <=? 102) then Some (n - 87)
  else None.

Definition hexOctet (h l : ascii) : option Z :=
  match hexValue h, hexValue l with
  | Some a, Some b => Some (16 * a + b)
  | _, _ => None
  end.

Definition charOf (b : Z) : ascii := ascii_of_nat (Z.to_nat b).

(** A code unit of the input of [decodeURIComponent]: a character taken
    as it is, or the octet of an escape [%XX]. *)
Inductive piece : Type :=
| Lit (c : ascii)
| Esc (b : Z).

(** Reading the escapes: a ['%'] that two hexadecimal digits do not
    follow is a URIError. *)
Fixpoint escapes (s : string) : completion (list piece) :=
  match s with
  | EmptyString => Return []
  | String "%" (String h (String l rest)) =>
      match hexOctet h l with
      | Some b => bindC (escapes rest) (fun ps => Return (Esc b :: ps))
      | None => Throw URIError
      end
  | String "%" _ => Throw URIError
  | String c rest => bindC (escapes rest) (fun ps => Return (Lit c :: ps))
  end.

Definition cont (lo hi b : Z) : bool := (lo <=? b) && (b <=? hi).

(** The escaped octets must spell well-formed UTF-8 (one escape per
    octet, no overlong form, no surrogate, nothing above U+10FFFF); the
    decoded text keeps those octets. *)
Fixpoint wellFormed (ps : list piece) : completion string :=
  match ps with
  | [] => Return EmptyString
  | Lit c :: r => bindC (wellFormed r) (fun t => Return (String c t))
  | Esc b :: r =>
      if b <? 0x80 then bindC (wellFormed r) (fun t => Return (String (charOf b) t))
      else if cont 0xC2 0xDF b then
        match r with
        | Esc c1 :: r1 =>
            if cont 0x80 0xBF c1
            then bindC (wellFormed r1) (fun t =>
                   Return (String (charOf b) (String (charOf c1) t)))
            else Throw URIError
        | _ => Throw URIError
        end
      else if cont 0xE0 0xEF b then
        match r with
        | Esc c1 :: Esc c2 :: r2 =>
            let lo := if b =? 0xE0 then 0xA0 else 0x80 in
            let hi := if b =? 0xED then 0x9F else 0xBF in
            if cont lo hi c1 && cont 0x80 0xBF c2
            then bindC (wellFormed r2) (fun t =>
                   Return (String (charOf b) (String (charOf c1) (String (charOf c2) t))))
            else Throw URIError
        | _ => Throw URIError
        end
      else if cont 0xF0 0xF4 b then
        match r with
        | Esc c1 :: Esc c2 :: Esc c3 :: r3 =>
            let lo := if b =? 0xF0 then 0x90 else 0x80 in
            let hi := if b =? 0xF4 then 0x8F else 0xBF in
            if cont lo hi c1 && cont 0x80 0xBF c2 && cont 0x80 0xBF c3
            then bindC (wellFormed r3) (fun t =>
                   Return (String (charOf b) (String (charOf c1)
                             (String (charOf c2) (String (charOf c3) t)))))
            else Throw URIError
        | _ => Throw URIError
        end
      else Throw URIError
  end.

(** [decodeURIComponent(s)] *)
Definition decodeURIComponent (s : string) : completion string :=
  bindC (escapes s) wellFormed.

(** *** The URL class

    The part of the URL parser that provisioning URIs exercise: a scheme,
    an optional [//authority], a path, a query and a fragment, parsed as
    the parser does for a scheme without special rules ([otpauth] is one).
    Blanks and control characters around the input go, tabs and newlines
    inside it go too.  Past that the input is taken to hold only
    characters that the parser keeps as they are (no character it would
    percent-encode, no dot segment), and a host that is no address in
    brackets.  The properties of [parseOtpAuthUri] below are stated on the
    parsed record, whatever parser produced it. *)

Record URL : Type :=
  Url { protocol : string;
        hostname : string;
        pathname : string;
        searchParams : list (string * string) }.

Fixpoint breakAt (p : ascii -> bool) (s : string) : string * string :=
  match s with
  | EmptyString => (EmptyString, EmptyString)
  | String c r =>
      if p c then (EmptyString, s)
      else let '(a, b) := breakAt p r in (String c a, b)
  end.

Definition isAlpha (c : ascii) : bool :=
  let n := code c in ((65 <=? n) && (n <=? 90)) || ((97 <=? n) && (n <=? 122)).

Definition isSchemeChar (c : ascii) : bool :=
  isAlpha c || isDigit c || Ascii.eqb c "+" || Ascii.eqb c "-" || Ascii.eqb c ".".

Fixpoint allChars (p : ascii -> bool) (s : string) : bool :=
  match s with
  | EmptyString => true
  | String c r => p c && allChars p r
  end.

Definition lowerChar (c : ascii) : ascii :=
  let n := code c in
  if (65 <=? n) && (n <=? 90) then ascii_of_nat (Z.to_nat (n + 32)) else c.

Fixpoint toLowerCase (s : string) : string :=
  match s with
  | EmptyString => EmptyString
  | String c r => String (lowerChar c) (toLowerCase r)
  end.

(** Percent-decoding of a query component: a ['%'] that two hexadecimal
    digits do not follow stays. *)
Fixpoint percentDecode (s : string) : string :=
  match s with
  | EmptyString => EmptyString
  | String "%" (String h (String l rest) as r) =>
      match hexOctet h l with
      | Some b => String (charOf b) (percentDecode rest)
      | None => String "%" (percentDecode r)
      end
  | String c r => String c (percentDecode r)
  end.

Fixpoint plusToSpace (s : string) : string :=
  match s with
  | EmptyString => EmptyString
  | String c r => String (if Ascii.eqb c "+" then " "%char else c) (plusToSpace r)
  end.

(** The name-value pairs of a query, in order. *)
Definition parseQuery (q : string) : list (string * string) :=
  flat_map
    (fun seg =>
       match seg with
       | EmptyString => []
       | _ =>
           let '(name, rest) := breakAt (Ascii.eqb "=") seg in
           [(percentDecode (plusToSpace name), percentDecode (plusToSpace (slice 1 rest)))]
       end)
    (split "&" q).

(** The text after the last ['@'] of an authority. *)
Definition afterUserinfo (authority : string) : string :=
  List.last (split "@" authority) EmptyString.

(** The characters the parser takes off both ends of its input, and the
    ones it takes out of it wherever they are. *)
Definition isC0OrSpace (c : ascii) : bool := code c <=? 32.

Definition isTabOrNewline (c : ascii) : bool :=
  let n := code c in (n =? 9) || (n =? 10) || (n =? 13).

Fixpoint dropLeading (p : ascii -> bool) (s : string) : string :=
  match s with
  | EmptyString => EmptyString
  | String c r => if p c then dropLeading p r else s
  end.

Fixpoint dropTrailing (p : ascii -> bool) (s : string) : string :=
  match s with
  | EmptyString => EmptyString
  | String c r =>
      let r' := dropTrailing p r in
      if p c && String.eqb r' "" then EmptyString else String c r'
  end.

Fixpoint removeChars (p : ascii -> bool) (s : string) : string :=
  match s with
  | EmptyString => EmptyString
  | String c r => if p c then removeChars p r else String c (removeChars p r)
  end.

(** The characters no host holds: NUL, TAB, LF, CR, SPACE and the signs
    # / : < > ? @ \ ^ |, with the two square brackets. *)
Definition isForbiddenHost (c : ascii) : bool :=
  let n := code c in
  (n =? 0) || (n =? 9) || (n =? 10) || (n =? 13) || (n =? 32) || (n =? 35)
  || (n =? 47) || (n =? 58) || (n =? 60) || (n =? 62) || (n =? 63) || (n =? 64)
  || (n =? 91) || (n =? 92) || (n =? 93) || (n =? 94) || (n =? 124).

(** [new URL(uri)], without a base: a TypeError when there is no scheme,
    when a host is missing before a port or after credentials, when the
    host holds a character no host holds, and when the port is not a
    number or is above 65535. *)
Definition URL_new (uri : string) : completion URL :=
  let input :=
    removeChars isTabOrNewline (dropTrailing isC0OrSpace (dropLeading isC0OrSpace uri)) in
  let '(scheme, rest) := breakAt (Ascii.eqb ":") input in
  match scheme, rest with
  | String c0 _, String _ afterColon =>
      if isAlpha c0 && allChars isSchemeChar scheme then
        let '(beforeFragment, _) := breakAt (Ascii.eqb "#") afterColon in
        let '(hier, query) := breakAt (Ascii.eqb "?") beforeFragment in
        let params := parseQuery (slice 1 query) in
        let proto := String.append (toLowerCase scheme) ":" in
        match hier with
        | String "/" (String "/" r) =>
            let '(authority, path) := breakAt (Ascii.eqb "/") r in
            let '(host, port) := breakAt (Ascii.eqb ":") (afterUserinfo authority) in
            let hostMissing :=
              String.eqb host "" && (includes authority "@" || negb (String.eqb port "")) in
            let portDigits := slice 1 port in
            if negb hostMissing
               && allChars (fun c => negb (isForbiddenHost c)) host
               && allChars isDigit portDigits
               && (decimalValue 0 portDigits <=? 65535)
            then Return (Url proto host path params)
            else Throw TypeError
        | _ => Return (Url proto EmptyString hier params)
        end
      else Throw TypeError
  | _, _ => Throw TypeError
  end.

(** [params.has(name)] and [params.get(name)] ([None] is [null]). *)
Definition has (params : list (string * string)) (name : string) : bool :=
  existsb (fun kv => String.eqb (fst kv) name) params.

Definition get (params : list (string * string)) (name : string) : option string :=
  match List.find (fun kv => String.eqb (fst kv) name) params with
  | Some kv => Some (snd kv)
  | None => None
  end.

(** [s || d] on a string that may be [null]. *)
Definition orElse (s : option string) (d : string) : string :=
  match s with
  | Some (String c r) => String c r
  | _ => d
  end.

(** [s.slice(0, n)] for [n >= 0] *)
Fixpoint sliceTo (n : nat) (s : string) : string :=
  match n, s with
  | O, _ => EmptyString
  | S _, EmptyString => EmptyString
  | S m, String c r => String c (sliceTo m r)
  end.

(** [s[i]]: the character at an index, [None] ([undefined]) past the end. *)
Fixpoint charAt (s : string) (i : nat) : option ascii :=
  match s, i with
  | EmptyString, _ => None
  | String c _, O => Some c
  | String _ r, S j => charAt r j
  end.

End JS.

(** ** The keyed hash of the platform

    [crypto.subtle.importKey] and [crypto.subtle.sign] with
    [{ name: 'HMAC', hash: 'SHA-1' }]: SHA-1 as in RFC 3174 and HMAC as in
    RFC 2104, on bytes held as integers in [0, 256). *)

Module WebCrypto.

Definition add32 (x y : Z) : Z := (x + y) mod 2 ^ 32.

Definition rotl (n x : Z) : Z :=
  Z.lor (Z.shiftl x n mod 2 ^ 32) (Z.shiftr x (32 - n)).

Definition not32 (x : Z) : Z := 2 ^ 32 - 1 - x.

(** The round function and the round constant of step [t]. *)
Definition f (t b c d : Z) : Z :=
  if t <? 20 then Z.lor (Z.land b c) (Z.land (not32 b) d)
  else if t <? 40 then Z.lxor (Z.lxor b c) d
  else if t <? 60 then Z.lor (Z.lor (Z.land b c) (Z.land b d)) (Z.land c d)
  else Z.lxor (Z.lxor b c) d.

Definition K (t : Z) : Z :=
  if t <? 20 then 0x5A827999
  else if t <? 40 then 0x6ED9EBA1
  else if t <? 60 then 0x8F1BBCDC
  else 0xCA62C1D6.

(** Big-endian bytes of a word, and the word of four bytes. *)
Definition wordBytes (w : Z) : list Z :=
  [ Z.shiftr w 24 mod 256; Z.shiftr w 16 mod 256; Z.shiftr w 8 mod 256; w mod 256 ].

Definition bytesWord (b0 b1 b2 b3 : Z) : Z :=
  ((b0 * 256 + b1) * 256 + b2) * 256 + b3.

Fixpoint words (bs : list Z) : list Z :=
  match bs with
  | b0 :: b1 :: b2 :: b3 :: r => bytesWord b0 b1 b2 b3 :: words r
  | _ => []
  end.

(** Message padding: the bit 1, zeros up to 56 modulo 64, then the length
    in bits on eight bytes. *)
Definition pad (msg : list Z) : list Z :=
  let len := Z.of_nat (length msg) in
  let zeros := Z.to_nat ((55 - len) mod 64) in
  msg ++ [128] ++ replicate zeros 0
      ++ wordBytes (Z.shiftr (8 * len) 32 mod 2 ^ 32) ++ wordBytes ((8 * len) mod 2 ^ 32).

(** The message schedule: sixteen words of the block, extended to eighty. *)
Fixpoint extend (n : nat) (w : list Z) : list Z :=
  match n with
  | O => w
  | S m =>
      let t := length w in
      let x := Z.lxor (Z.lxor (nth (t - 3) w 0) (nth (t - 8) w 0))
                      (Z.lxor (nth (t - 14) w 0) (nth (t - 16) w 0)) in
      extend m (w ++ [rotl 1 x])
  end.

Record state : Type := State { h0 : Z; h1 : Z; h2 : Z; h3 : Z; h4 : Z }.

Definition round (s : state) (tw : Z * Z) : state :=
  let '(t, w) := tw in
  let temp := add32 (add32 (add32 (add32 (rotl 5 (h0 s)) (f t (h1 s) (h2 s) (h3 s))) (h4 s)) (K t)) w in
  State temp (h0 s) (rotl 30 (h1 s)) (h2 s) (h3 s).

Definition numbered (w : list Z) : list (Z * Z) :=
  combine (map Z.of_nat (seq 0 (length w))) w.

Definition compress (h : state) (block : list Z) : state :=
  let w := extend 64 (words block) in
  let s := fold_left round (numbered w) h in
  State (add32 (h0 h) (h0 s)) (add32 (h1 h) (h1 s)) (add32 (h2 h) (h2 s))
        (add32 (h3 h) (h3 s)) (add32 (h4 h) (h4 s)).

(** Blocks of 64 bytes; [n] is the number of blocks to take. *)
Fixpoint blocks (n : nat) (bs : list Z) : list (list Z) :=
  match n with
  | O => []
  | S m => take 64 bs :: blocks m (drop 64 bs)
  end.

Definition initial : state :=
  State 0x67452301 0xEFCDAB89 0x98BADCFE 0x10325476 0xC3D2E1F0.

Definition digestBytes (s : state) : list Z :=
  wordBytes (h0 s) ++ wordBytes (h1 s) ++ wordBytes (h2 s)
    ++ wordBytes (h3 s) ++ wordBytes (h4 s).

Definition sha1 (msg : list Z) : list Z :=
  let p := pad msg in
  digestBytes (fold_left compress (blocks (length p / 64) p) initial).

Definition xorPad (c : Z) (key : list Z) : list Z :=
  map (fun b => Z.lxor b c) (key ++ replicate (64 - length key)%nat 0).

Definition hmac (key message : list Z) : list Z :=
  let k := if (64 <? length key)%nat then sha1 key else key in
  sha1 (xorPad 0x5C k ++ sha1 (xorPad 0x36 k ++ message)).

End WebCrypto.

(** ** modules/totp.js *)

Module Totp.
Import JS.

(** Base32 character set (RFC 4648). *)
Definition BASE32_CHARS : string := "ABCDEFGHIJKLMNOPQRSTUVWXYZ234567".

(** The three [replace]/[toUpperCase] lines that open [base32Decode]. *)
Definition normalize (encoded : string) : string :=
  removePadding (toUpperCase (removeWhiteSpace encoded)).

(** The variables of the decoding loop. *)
Record decoder : Type :=
  Decoder { bits : Z; value : Z; index : nat; output : list Z }.

(** The [for] loop of [base32Decode], one character per step.  A write
    past the end of a typed array is dropped, as the list update does. *)
Fixpoint decodeLoop (encoded : string) (st : decoder) : completion (list Z) :=
  match encoded with
  | EmptyString => Return (output st)
  | String char rest =>
      let charIndex := indexOf BASE32_CHARS char in
      if charIndex =? -1 then Throw (InvalidBase32Character char)
      else
        let value' := bitor (shl (value st) 5) charIndex in
        let bits' := bits st + 5 in
        if 8 <=? bits' then
          let byte := bitand (ushr value' (bits' - 8)) 0xff in
          decodeLoop rest
            (Decoder (bits' - 8) value' (S (index st)) (<[index st := byte]> (output st)))
        else decodeLoop rest (Decoder bits' value' (index st) (output st))
  end.

Definition base32Decode (encoded : string) : completion (list Z) :=
  let encoded := normalize encoded in
  let length := Z.of_nat (String.length encoded) in
  let output := replicate (Z.to_nat (length * 5 / 8)) 0 in
  decodeLoop encoded (Decoder 0 0 0 output).

(** [num & 0xff] and [Math.floor(num / 256)] on a number; the bitwise
    operator reads NaN and the infinities as 0. *)
Definition lowByte (num : number) : Z :=
  match num with
  | Int z => bitand z 0xff
  | _ => 0
  end.

Definition floorDiv256 (num : number) : number :=
  match num with
  | Int z => Int (z / 256)
  | other => other
  end.

(** The loop of [numberToBytes]: [n] is [i + 1], from 8 down to 1. *)
Fixpoint numberToBytesLoop (n : nat) (num : number) (bytes : list Z) : list Z :=
  match n with
  | O => bytes
  | S i => numberToBytesLoop i (floorDiv256 num) (<[i := lowByte num]> bytes)
  end.

Definition numberToBytes (num : number) : list Z :=
  numberToBytesLoop 8 num (replicate 8 0).

(** [importKey] refuses an empty HMAC key; otherwise the signature is the
    20-byte HMAC-SHA1 of the message. *)
Definition hmacSha1 (key message : list Z) : completion (list Z) :=
  match key with
  | [] => Throw DataError
  | _ => Return (WebCrypto.hmac key message)
  end.

(** The [options] argument of [generateTOTP]; [None] is an absent field,
    which takes the default of the destructuring pattern.  [period] and
    [digits] are numbers as a caller has them, NaN included (the popup
    passes what [parseInt] made of a form field); [timestamp] is a time in
    milliseconds. *)
Record options : Type :=
  Options { optPeriod : option number;
            optDigits : option number;
            optTimestamp : option Z }.

(** [Math.floor(timestamp / 1000 / period)]: a zero period divides by
    zero, which gives an infinity (NaN for 0 / 0) and no exception; a NaN
    period gives NaN and an infinite one a zero.  Otherwise the floor of
    the exact quotient, also for a negative period. *)
Definition stepCounter (timestamp : Z) (period : number) : number :=
  match period with
  | Int p =>
      if p =? 0 then
        if timestamp =? 0 then NaN else Infinity (0 <? timestamp)
      else Int (timestamp / (1000 * p))
  | NaN => NaN
  | Infinity _ => Int 0
  end.

(** [hmac[i]] as the operand of a bitwise operator: out of range it reads
    [undefined], which the operator takes as 0. *)
Definition byteAt (hmac : list Z) (i : Z) : Z :=
  if i <? 0 then 0 else nth (Z.to_nat i) hmac 0.

(** Lines 110 to 115 of the source. *)
Definition truncationOffset (hmac : list Z) : Z :=
  bitand (byteAt hmac (Z.of_nat (length hmac) - 1)) 0x0f.

Definition dynamicTruncation (hmac : list Z) : Z :=
  let offset := truncationOffset hmac in
  bitor (bitor (bitor (shl (bitand (byteAt hmac offset) 0x7f) 24)
                      (shl (bitand (byteAt hmac (offset + 1)) 0xff) 16))
               (shl (bitand (byteAt hmac (offset + 2)) 0xff) 8))
        (bitand (byteAt hmac (offset + 3)) 0xff).

(** The text a call resolves with: [Digits s] is the text [s].  With a
    negative integer [digits] the source takes the remainder by the
    fraction [10^digits] in floating point and returns its decimal text
    unpadded; the characters of that text are outside the model, which
    records only that a text is returned. *)
Inductive codeText : Type :=
| Digits (s : string)
| Fractional (binary digits : Z).

(** Lines 118 and 119 of the source: [binary % Math.pow(10, digits)], its
    text, and the padding.  The remainder by NaN, and by the 0 that
    [Math.pow(10, -Infinity)] is, is NaN; the remainder by the infinity
    that [Math.pow(10, Infinity)] is, is [binary] itself.  A negative
    target length pads nothing, so the fractional case returns. *)
Definition renderOtp (binary : Z) (digits : number) : completion codeText :=
  match digits with
  | Int d =>
      if d <? 0 then Return (Fractional binary d)
      else
        let otp := Z.rem binary (10 ^ d) in
        bindC (padStart (toString otp) digits "0") (fun s => Return (Digits s))
  | Infinity true =>
      bindC (padStart (toString binary) digits "0") (fun s => Return (Digits s))
  | _ =>
      bindC (padStart "NaN" digits "0") (fun s => Return (Digits s))
  end.

(** [generateTOTP(secret, options)]; [now] is the value of [Date.now()]. *)
Definition generateTOTP (now : Z) (secret : string) (opts : options)
  : completion codeText :=
  let period := default (Int 30) (optPeriod opts) in
  let digits := default (Int 6) (optDigits opts) in
  let timestamp := default now (optTimestamp opts) in
  bindC (base32Decode secret) (fun key =>
  let counter := stepCounter timestamp period in
  let counterBytes := numberToBytes counter in
  bindC (hmacSha1 key counterBytes) (fun hmac =>
  let binary := dynamicTruncation hmac in
  renderOtp binary digits)).

(** [getRemainingSeconds(period)]; [nowMs] is the value of [Date.now()]
    and [%] is the remainder that takes the sign of the dividend. *)
Definition getRemainingSeconds (nowMs : Z) (period : Z) : Z :=
  let now := nowMs / 1000 in
  period - Z.rem now period.

(** The result of [parseOtpAuthUri]. *)
Record accountData : Type :=
  AccountData { type : string;
                issuer : string;
                account : string;
                secret : string;
                algorithm : string;
                digits : number;
                period : number }.

(** Lines 150 to 155: issuer and account from the path.  The
    destructuring takes the first two pieces of [path.split(':')]; a piece
    that is missing would read [undefined], which the later [||] treats as
    the empty string does. *)
Definition labelParts (path : string) : string * string :=
  if includes path ":" then
    match split ":" path with
    | issuer :: account :: _ => (issuer, account)
    | [issuer] => (issuer, EmptyString)
    | [] => (EmptyString, EmptyString)
    end
  else (EmptyString, path).

(** The body of the [try] block once [new URL(uri)] has returned. *)
Definition parseUrl (url : URL) : completion accountData :=
  if negb (String.eqb (protocol url) "otpauth:") then Throw InvalidProtocol
  else
    let type := hostname url in
    bindC (decodeURIComponent (slice 1 (pathname url))) (fun path =>
    let params := searchParams url in
    let '(issuer, account) := labelParts path in
    let issuer := if has params "issuer" then default EmptyString (get params "issuer") else issuer in
    Return (AccountData type
              (orElse (Some issuer) "Unknown")
              (orElse (Some account) "Unknown")
              (orElse (get params "secret") "")
              (orElse (get params "algorithm") "SHA1")
              (parseInt10 (orElse (get params "digits") "6"))
              (parseInt10 (orElse (get params "period") "30")))).

(** [parseOtpAuthUri(uri)]: whatever is thrown inside the [try] block
    comes out as 'Invalid OTP Auth URI'. *)
Definition parseOtpAuthUri (uri : string) : completion accountData :=
  tryCatch (bindC (URL_new uri) parseUrl) InvalidOtpAuthUri.

(** [formatOtp(code)]: the code with a space at its midpoint. *)
Definition formatOtp (code : string) : string :=
  let mid := Nat.div (String.length code) 2 in
  String.append (sliceTo mid code) (String " " (slice mid code)).

End Totp.

(** ** The storage module *)

Module Storage.
Import JS.

(** An account record: a plain object whose fields hold primitive values.
    A field that is absent reads [undefined], here [None]. *)
Abbreviation account := (gmap string jsval).

(** [chrome.storage.local], reduced to the keys the module reads:
    [STORAGE_KEYS.ACCOUNTS] and [STORAGE_KEYS.SETTINGS].  [None] is a key
    that was never written. *)
Record local : Type :=
  Local { totpAccounts : option (list account);
          appSettings : option (gmap string jsval) }.

(** An asynchronous operation of the module: it reads and writes the
    storage and either returns or throws. *)
Definition Async (A : Type) : Type := local -> completion A * local.

Definition ret {A} (a : A) : Async A := fun st => (Return a, st).

Definition throw {A} (e : error) : Async A := fun st => (Throw e, st).

Definition bind {A B} (m : Async A) (k : A -> Async B) : Async B :=
  fun st =>
    match m st with
    | (Return a, st') => k a st'
    | (Throw e, st') => (Throw e, st')
    end.

(** [try { m } catch (error) { return h(error) }] *)
Definition catch {A} (m : Async A) (h : error -> A) : Async A :=
  fun st =>
    match m st with
    | (Return a, st') => (Return a, st')
    | (Throw e, st') => (Return (h e), st')
    end.

Notation "'await' x <- m ;; k" := (bind m (fun x => k))
  (at level 10, x name, m at level 99, k at level 200).

(** [get(STORAGE_KEYS.ACCOUNTS, [])] and [set(STORAGE_KEYS.ACCOUNTS, ..)] *)
Definition getAccounts : Async (list account) :=
  fun st => (Return (default [] (totpAccounts st)), st).

Definition saveAccounts (accounts : list account) : Async unit :=
  fun st => (Return tt, Local (Some accounts) (appSettings st)).

Definition getSettings : Async (gmap string jsval) :=
  fun st => (Return (default ∅ (appSettings st)), st).

(** [a === b] on two field reads. *)
Definition strictEq (a b : option jsval) : bool := bool_decide (a = b).

(** [addAccount(account)]; [now] is the value of [Date.now()]. *)
Definition addAccount (now : Z) (account : account) : Async unit :=
  await accounts <- getAccounts ;;
  saveAccounts
    (accounts ++ [ <["order" := JNum (Z.of_nat (length accounts))]>
                     (<["createdAt" := JNum now]> account) ]).

(** [l.findIndex(p)]: first position, or -1. *)
Fixpoint findIndex {A} (p : A -> bool) (l : list A) : Z :=
  match l with
  | [] => -1
  | x :: r =>
      if p x then 0
      else let i := findIndex p r in if i =? -1 then -1 else 1 + i
  end.

(** [updateAccount(id, updates)]: the spread [{ ...old, ...updates }]
    keeps the fields of [old] that [updates] does not set. *)
Definition updateAccount (id : string) (updates : gmap string jsval) : Async unit :=
  await accounts <- getAccounts ;;
  let index := findIndex (fun acc : account => strictEq (acc !! "id") (Some (JStr id))) accounts in
  if negb (index =? -1) then
    let i := Z.to_nat index in
    saveAccounts (<[i := updates ∪ default ∅ (accounts !! i)]> accounts)
  else ret tt.

(** [deleteAccount(id)] *)
Definition deleteAccount (id : string) : Async unit :=
  await accounts <- getAccounts ;;
  let filtered :=
    List.filter (fun acc : account => negb (strictEq (acc !! "id") (Some (JStr id)))) accounts in
  saveAccounts filtered.

(** The value of the [accounts] field of an import payload: an array of
    account objects, or a primitive value. *)
Inductive accountsField : Type :=
| Array (l : list account)
| Prim (v : jsval).

(** The object handed to [importData] (what [JSON.parse] gave), and the
    object [exportData] builds.  The elements of an [accounts] array are
    taken to be account objects. *)
Record payload : Type :=
  Payload { version : option jsval;
            exportedAt : option jsval;
            accounts : option accountsField;
            settings : option (gmap string jsval) }.

Definition truthyField (f : option accountsField) : bool :=
  match f with
  | None => false
  | Some (Array _) => true
  | Some (Prim v) => truthy (Some v)
  end.

(** [exportData()]; [isoNow] is [new Date().toISOString()]. *)
Definition exportData (isoNow : string) : Async payload :=
  await accounts <- getAccounts ;;
  await settings <- getSettings ;;
  ret (Payload (Some (JStr "1.0")) (Some (JStr isoNow)) (Some (Array accounts)) (Some settings)).

(** The object [importData] returns. *)
Inductive importResult : Type :=
| Success (imported skipped : Z)   (* { success: true, imported, skipped } *)
| Failure (message : error).       (* { success: false, error: error.message } *)

(** [data.accounts.filter(..)]: a TypeError when the field holds no array. *)
Definition filterAccounts (f : option accountsField) (p : account -> bool)
  : Async (list account) :=
  match f with
  | Some (Array l) => ret (List.filter p l)
  | _ => throw TypeError
  end.

Definition lengthOf (f : option accountsField) : Z :=
  match f with
  | Some (Array l) => Z.of_nat (length l)
  | _ => 0
  end.

(** [importData(data)] *)
Definition importData (data : payload) : Async importResult :=
  catch
    (if negb (truthy (version data)) || negb (truthyField (accounts data))
     then throw InvalidDataFormat
     else
       await existingAccounts <- getAccounts ;;
       await newAccounts <-
         filterAccounts (accounts data)
           (fun acc : account =>
              negb (existsb (fun existing : account =>
                               strictEq (existing !! "id") (acc !! "id"))
                            existingAccounts)) ;;
       await _ <- (if 0 <? Z.of_nat (length newAccounts)
              then saveAccounts (existingAccounts ++ newAccounts)
              else ret tt) ;;
       ret (Success (Z.of_nat (length newAccounts))
                    (lengthOf (accounts data) - Z.of_nat (length newAccounts))))
    Failure.

(** The storage of a fresh profile, and the state an operation leaves. *)
Definition emptyLocal : local := Local None None.

Definition exec {A} (m : Async A) (st : local) : local := snd (m st).

Definition registry (st : local) : list account := default [] (totpAccounts st).

End Storage.

(** ** The password generator module *)

Module Password.
Import JS.

(** [CHARSETS] *)
Definition uppercaseChars : string := "ABCDEFGHIJKLMNOPQRSTUVWXYZ".
Definition lowercaseChars : string := "abcdefghijklmnopqrstuvwxyz".
Definition numberChars : string := "0123456789".
Definition symbolChars : string := "!@#$%^&*()_+-=[]{}|;:,.<>?".

(** The [options] object of the module. *)
Record options : Type :=
  Options { length : Z;
            uppercase : bool;
            lowercase : bool;
            numbers : bool;
            symbols : bool }.

(** [DEFAULT_OPTIONS] *)
Definition DEFAULT_OPTIONS : options := Options 12 true true true true.

(** The charset built at the head of [generatePassword]: the selected
    sets in the order upper, lower, numbers, symbols; the lower-case set
    when nothing is selected. *)
Definition buildCharset (o : options) : string :=
  let charset :=
    String.append (if uppercase o then uppercaseChars else EmptyString)
      (String.append (if lowercase o then lowercaseChars else EmptyString)
         (String.append (if numbers o then numberChars else EmptyString)
            (if symbols o then symbolChars else EmptyString))) in
  match charset with
  | EmptyString => lowercaseChars
  | _ => charset
  end.

(** The random source: [crypto.getRandomValues] fills a [Uint32Array], so
    each value read is below [2^32].  The state of a computation is the
    number of values drawn so far from the sequence [rand]. *)
Definition Rand (A : Type) : Type := (nat -> Z) -> nat -> A * nat.

Definition getRandomValues (n : nat) : Rand (list Z) :=
  fun rand cursor =>
    (map (fun i => toUint32 (rand i)) (seq cursor n), (cursor + n)%nat).

(** [x += charset[i]]: an index past the end reads [undefined], which the
    concatenation spells out. *)
Definition appendIndexed (x charset : string) (i : Z) : string :=
  match charAt charset (Z.to_nat i) with
  | Some c => String.append x (String c EmptyString)
  | None => String.append x "undefined"
  end.

(** The loop that builds the password from the random values; [%] on
    non-negative operands. *)
Definition drawPassword (charset : string) (randomValues : list Z) : string :=
  fold_left
    (fun password r =>
       appendIndexed password charset (Z.rem r (Z.of_nat (String.length charset))))
    randomValues EmptyString.

(** [containsAny(str, charset)] *)
Fixpoint containsAny (str charset : string) : bool :=
  match charset with
  | EmptyString => false
  | String c r => if includes str c then true else containsAny str r
  end.

(** [getRandomChar(charset)] *)
Definition getRandomChar (charset : string) : Rand (option ascii) :=
  fun rand cursor =>
    let '(randomValue, cursor') := getRandomValues 1 rand cursor in
    (charAt charset
            (Z.to_nat (Z.rem (nth 0 randomValue 0) (Z.of_nat (String.length charset)))),
     cursor').

(** One [if] of [ensureCharacterTypes]: when the type is selected and the
    password (as it was on entry) has none of its characters, the
    character at a random position is replaced.  With an empty password
    the position is NaN and no character changes.  The four sets are not
    empty, so [getRandomChar] always yields a character. *)
Definition ensureType (selected : bool) (typeChars password : string)
                      (randomPos : list Z)
                      (st : list ascii * nat) : Rand (list ascii * nat) :=
  fun rand cursor =>
    let '(chars, posIndex) := st in
    if selected && negb (containsAny password typeChars) then
      let pos := Z.rem (nth posIndex randomPos 0) (Z.of_nat (String.length password)) in
      let '(c, cursor') := getRandomChar typeChars rand cursor in
      let chars' :=
        match c with
        | Some c => if (String.length password =? 0)%nat then chars
                    else <[Z.to_nat pos := c]> chars
        | None => chars
        end in
      ((chars', S posIndex), cursor')
    else ((chars, posIndex), cursor).

(** [ensureCharacterTypes(password, options, charset)] *)
Definition ensureCharacterTypes (password : string) (o : options) : Rand string :=
  fun rand cursor =>
    let chars := list_ascii_of_string password in
    let '(randomPos, c0) := getRandomValues 4 rand cursor in
    let '(s1, c1) := ensureType (uppercase o) uppercaseChars password randomPos (chars, O) rand c0 in
    let '(s2, c2) := ensureType (lowercase o) lowercaseChars password randomPos s1 rand c1 in
    let '(s3, c3) := ensureType (numbers o) numberChars password randomPos s2 rand c2 in
    let '(s4, c4) := ensureType (symbols o) symbolChars password randomPos s3 rand c3 in
    (string_of_list_ascii (fst s4), c4).

(** [generatePassword(options)].  [None] is an exception: a negative
    length cannot size the array, and [getRandomValues] refuses more than
    65536 bytes, that is 16384 values. *)
Definition generatePassword (o : options) : Rand (option string) :=
  fun rand cursor =>
    if (length o <? 0) || (16384 <? length o) then (None, cursor)
    else
      let charset := buildCharset o in
      let '(randomValues, c1) := getRandomValues (Z.to_nat (length o)) rand cursor in
      let password := drawPassword charset randomValues in
      let '(password', c2) := ensureCharacterTypes password o rand c1 in
      (Some password', c2).

(** The strength levels and the object [evaluateStrength] returns. *)
Inductive level : Type := weak | medium | strong.

Record strength : Type :=
  Strength { strengthLevel : level; score : Z; label : string }.

(** [getStrengthLabel(level)] *)
Definition getStrengthLabel (l : level) : string :=
  match l with
  | weak => "弱"
  | medium => "中"
  | strong => "强"
  end.

Definition typeCount (o : options) : Z :=
  (if uppercase o then 1 else 0) + (if lowercase o then 1 else 0)
  + (if numbers o then 1 else 0) + (if symbols o then 1 else 0).

(** [evaluateStrength(password, options)] *)
Definition evaluateStrength (password : string) (o : options) : strength :=
  let length := Z.of_nat (String.length password) in
  let typeCount := typeCount o in
  let score :=
    (if 16 <=? length then 40
     else if 12 <=? length then 30
     else if 8 <=? length then 20
     else 10) + typeCount * 15 in
  let level :=
    if (70 <=? score) && (12 <=? length) && (3 <=? typeCount) then strong
    else if (50 <=? score) && (8 <=? length) && (2 <=? typeCount) then medium
    else weak in
  Strength level score (getStrengthLabel level).

End Password.

(** ** Vocabulary of the specification *)

Import JS.

(** The alphabet of section 4.1, by character ranges: A-Z and 2-7. *)
Definition isBase32Char (c : ascii) : bool :=
  let n := code c in ((65 <=? n) && (n <=? 90)) || ((50 <=? n) && (n <=? 55)).

(** The first character of a text that is outside the alphabet. *)
Fixpoint firstInvalid (s : string) : option ascii :=
  match s with
  | EmptyString => None
  | String c r => if isBase32Char c then firstInvalid r else Some c
  end.

Definition isByte (b : Z) : Prop := 0 <= b < 256.

(** Dynamic truncation in the words of section 4.2, step 5: the offset is
    [digest[19] & 0x0F]; the four bytes from the offset on, the top bit of
    the first one masked off, are combined big-endian. *)
Definition specOffset (digest : list Z) : Z := Z.land (nth 19 digest 0) 0x0F.

Definition specBinary (digest : list Z) : Z :=
  let offset := Z.to_nat (specOffset digest) in
  Z.land (nth offset digest 0) 0x7F * 2 ^ 24
  + nth (offset + 1) digest 0 * 2 ^ 16
  + nth (offset + 2) digest 0 * 2 ^ 8
  + nth (offset + 3) digest 0.

(** The 8-byte counter a call hashes. *)
Definition counterBytes (now : Z) (opts : Totp.options) : list Z :=
  Totp.numberToBytes
    (Totp.stepCounter (default now (Totp.optTimestamp opts))
                      (default (Int 30) (Totp.optPeriod opts))).

(** A number that is not positive: an integer at most 0, or the negative
    infinity. *)
Definition nonPositive (n : number) : bool :=
  match n with
  | Int z => z <=? 0
  | NaN => false
  | Infinity positive => negb positive
  end.

(** A target length that no string of the engine has. *)
Definition beyondStringLimit (n : number) : bool :=
  maxStringLength <? toLength n.

(** A character with which the text of a base-10 integer can start:
    a digit, a sign, or white space before them. *)
Definition startsNumber (c : ascii) : bool :=
  isDigit c || isWhiteSpace c || Ascii.eqb c "+" || Ascii.eqb c "-".

(** *** The registry *)

Import Storage.

(** The identifiers of a collection, in sequence ([None]: no [id] field),
    and the invariant of section 3 on them. *)
Definition ids (accs : list account) : list (option jsval) :=
  map (fun a : account => a !! "id") accs.

Definition uniqueIds (accs : list account) : Prop := NoDup (ids accs).

(** The numeric [order] field of a record. *)
Definition orderOf (a : account) : option Z :=
  match a !! "order" with
  | Some (JNum z) => Some z
  | _ => None
  end.

(** Order values reflect the insertion sequence: the collection is kept
    in insertion sequence ([push] appends, [filter] keeps the sequence),
    so a record stored before another one has the smaller order value. *)
Definition insertionOrdered (accs : list account) : Prop :=
  forall (i j : nat) (oi oj : option Z),
    (i < j)%nat ->
    map orderOf accs !! i = Some oi -> map orderOf accs !! j = Some oj ->
    exists x y, oi = Some x /\ oj = Some y /\ x < y.

Definition registryInvariant (accs : list account) : Prop :=
  uniqueIds accs /\ insertionOrdered accs.

(** The mutating operations of section 4.4 as requests, and their effect
    on the storage. *)
Inductive request : Type :=
| Add (now : Z) (record : account)
| Update (id : string) (partialFields : account)
| Delete (id : string)
| Import (data : payload).

Definition perform (r : request) (st : local) : local :=
  match r with
  | Add now record => exec (addAccount now record) st
  | Update id partialFields => exec (updateAccount id partialFields) st
  | Delete id => exec (deleteAccount id) st
  | Import data => exec (importData data) st
  end.

Definition run (rs : list request) (st : local) : local :=
  fold_left (fun st r => perform r st) rs st.

(** Requests under which the code keeps identifiers unique: an added
    record brings an identifier no stored record has, the partial fields
    of an update set no [id], the accounts of a payload have pairwise
    distinct identifiers. *)
Definition admissible (r : request) (st : local) : Prop :=
  match r with
  | Add _ record => ~ In (record !! "id") (ids (registry st))
  | Update _ partialFields => partialFields !! "id" = None
  | Delete _ => True
  | Import data =>
      match accounts data with
      | Some (Array l) => NoDup (ids l)
      | _ => True
      end
  end.

Fixpoint admissibleRun (rs : list request) (st : local) : Prop :=
  match rs with
  | [] => True
  | r :: rs' => admissible r st /\ admissibleRun rs' (perform r st)
  end.

(** Every record carries its position as its order value. *)
Definition positional (accs : list account) : Prop :=
  forall (i : nat) (a : account),
    accs !! i = Some a -> a !! "order" = Some (JNum (Z.of_nat i)).

(** The request that adds [record] at time [now]. *)
Definition addOf (na : Z * account) : request := Add (fst na) (snd na).

(** The test [importData] applies to an incoming account. *)
Definition isNew (existing : list account) (acc : account) : bool :=
  negb (existsb (fun e : account => strictEq (e !! "id") (acc !! "id")) existing).

(** Sample data for the concrete instances below. *)
Definition sampleAccount (id : string) : account :=
  {[ "id" := JStr id; "issuer" := JStr "Example"; "secret" := JStr "JBSWY3DPEHPK3PXP" ]}.

Definition samplePayload (version : option jsval) (l : list account) : payload :=
  Payload version (Some (JStr "2024-01-01T00:00:00.000Z")) (Some (Array l)) (Some ∅).

(** A payload that names the identifier "x" twice, and an update that
    rewrites the identifier of "a" into the one of "b". *)
Definition repeatedIdPayload : payload :=
  samplePayload (Some (JStr "1.0"))
    [ sampleAccount "x"; <["issuer" := JStr "Other"]> (sampleAccount "x") ].

Definition renameIntoExisting : list request :=
  [ Add 1 (sampleAccount "a"); Add 2 (sampleAccount "b");
    Update "a" {[ "id" := JStr "b" ]} ].

(** Three records added, the first two deleted, a fourth one added. *)
Definition addDeleteAdd : list request :=
  [ Add 1 (sampleAccount "a"); Add 2 (sampleAccount "b"); Add 3 (sampleAccount "c");
    Delete "a"; Delete "b"; Add 4 (sampleAccount "d") ].

(** *** Base32 and byte strings as numbers *)

(** The value of a character of the alphabet (RFC 4648, table 3): A-Z are
    0 to 25 and 2-7 are 26 to 31. *)
Definition base32Digit (c : ascii) : Z :=
  let n := code c in if n <=? 57 then n - 24 else n - 65.

(** A text of the alphabet read as a numeral in base 32. *)
Fixpoint base32Value (acc : Z) (s : string) : Z :=
  match s with
  | EmptyString => acc
  | String c r => base32Value (32 * acc + base32Digit c) r
  end.

(** Byte [j] of a bit string of [totalBits] bits whose value is [v]:
    bits [8j] to [8j + 7], counted from the most significant one. *)
Definition specByte (v totalBits : Z) (j : nat) : Z :=
  (v / 2 ^ (totalBits - 8 * (Z.of_nat j + 1))) mod 256.

(** The whole bytes of the 5-bit groups of a text, a trailing group of
    fewer than 8 bits being dropped. *)
Definition specBytes (s : string) : list Z :=
  let n := Z.of_nat (String.length s) in
  map (specByte (base32Value 0 s) (5 * n)) (seq 0 (Z.to_nat (5 * n / 8))).

(** A list of bytes read as a big-endian number. *)
Fixpoint bigEndian (acc : Z) (bs : list Z) : Z :=
  match bs with
  | [] => acc
  | b :: r => bigEndian (256 * acc + b) r
  end.

(** *** Passwords *)

(** The order of the strength levels. *)
Definition levelRank (l : Password.level) : Z :=
  match l with
  | Password.weak => 0
  | Password.medium => 1
  | Password.strong => 2
  end.

(** [c] is a character of the text [s]. *)
Definition charIn (s : string) (c : ascii) : Prop := In c (list_ascii_of_string s).

(** The number of positions at which two character lists differ. *)
Fixpoint mismatches (l k : list ascii) : nat :=
  match l, k with
  | a :: l', b :: k' => ((if Ascii.eqb a b then 0 else 1) + mismatches l' k')%nat
  | _, _ => O
  end.

(** The number of selected character types of which a text has no
    character. *)
Definition missingTypes (o : Password.options) (password : string) : nat :=
  ((if Password.uppercase o && negb (Password.containsAny password Password.uppercaseChars)
    then 1 else 0)
   + (if Password.lowercase o && negb (Password.containsAny password Password.lowercaseChars)
      then 1 else 0)
   + (if Password.numbers o && negb (Password.containsAny password Password.numberChars)
      then 1 else 0)
   + (if Password.symbols o && negb (Password.containsAny password Password.symbolChars)
      then 1 else 0))%nat.

(** * Properties *)

(** Case analysis on the 256 characters. *)
Ltac each_ascii c :=
  let b0 := fresh "b" in let b1 := fresh "b" in let b2 := fresh "b" in
  let b3 := fresh "b" in let b4 := fresh "b" in let b5 := fresh "b" in
  let b6 := fresh "b" in let b7 := fresh "b" in
  destruct c as [b0 b1 b2 b3 b4 b5 b6 b7];
  destruct b0, b1, b2, b3, b4, b5, b6, b7.

(** ** Base32 codec *)

Lemma indexOf_alphabet (c : ascii) :
  (indexOf Totp.BASE32_CHARS c =? -1) = negb (isBase32Char c).
Proof. each_ascii c; vm_compute; reflexivity. Qed.

Lemma decodeLoop_throws (s : string) :
  forall st e,
    Totp.decodeLoop s st = Throw e <->
    exists c, e = InvalidBase32Character c /\ firstInvalid s = Some c.
Proof.
  induction s as [|c r IH]; intros st e; cbn [Totp.decodeLoop firstInvalid].
  - split; [discriminate | intros (c & _ & H); discriminate].
  - rewrite indexOf_alphabet.
    destruct (isBase32Char c) eqn:Hc; cbn [negb].
    + destruct (8 <=? Totp.bits st + 5); apply IH.
    + split.
      * intros H; inversion H; subst; eauto.
      * intros (c' & -> & H); inversion H; reflexivity.
Qed.

Lemma firstInvalid_some (s : string) (c : ascii) :
  firstInvalid s = Some c ->
  In c (list_ascii_of_string s) /\ isBase32Char c = false.
Proof.
  induction s as [|d r IH]; simpl; [discriminate|].
  destruct (isBase32Char d) eqn:Hd.
  - intros H; destruct (IH H); auto.
  - intros H; inversion H; subst; auto.
Qed.

Lemma firstInvalid_exists (s : string) (c : ascii) :
  In c (list_ascii_of_string s) -> isBase32Char c = false ->
  exists d, firstInvalid s = Some d.
Proof.
  induction s as [|d r IH]; simpl; [tauto|].
  intros [->|Hin] Hc.
  - rewrite Hc; eauto.
  - destruct (isBase32Char d); eauto.
Qed.

(** C6. Decoding fails exactly when the normalized text (white space
    removed, upper-cased, trailing padding removed) holds a character
    outside A-Z2-7; the error then names the first such character; a text
    that is empty after normalization decodes to no byte at all. *)
Theorem base32Decode_fails_iff_invalid_character (encoded : string) :
  (forall e, Totp.base32Decode encoded = Throw e <->
             exists c, e = InvalidBase32Character c /\
                       firstInvalid (Totp.normalize encoded) = Some c) /\
  ((exists e, Totp.base32Decode encoded = Throw e) <->
   (exists c, In c (list_ascii_of_string (Totp.normalize encoded)) /\
              isBase32Char c = false)) /\
  (Totp.normalize encoded = EmptyString -> Totp.base32Decode encoded = Return []).
Proof.
  unfold Totp.base32Decode.
  split; [|split].
  - intros e. apply decodeLoop_throws.
  - split.
    + intros [e He]. apply decodeLoop_throws in He as (c & _ & Hc).
      exists c. apply firstInvalid_some; assumption.
    + intros (c & Hin & Hc).
      destruct (firstInvalid_exists _ _ Hin Hc) as [d Hd].
      exists (InvalidBase32Character d). apply decodeLoop_throws; eauto.
  - intros ->. reflexivity.
Qed.

(** ** Remaining seconds *)

(** C7. With a positive period and a clock at or after the epoch, the
    remaining time is [period - (seconds mod period)], between 1 and the
    period: a full period, never 0, when the remainder is 0. *)
Theorem getRemainingSeconds_range (nowMs period : Z) :
  0 <= nowMs -> 0 < period ->
  Totp.getRemainingSeconds nowMs period = period - (nowMs / 1000) mod period /\
  1 <= Totp.getRemainingSeconds nowMs period <= period /\
  ((nowMs / 1000) mod period = 0 -> Totp.getRemainingSeconds nowMs period = period).
Proof.
  intros Hnow Hp. unfold Totp.getRemainingSeconds.
  assert (Hs : 0 <= nowMs / 1000) by (apply Z.div_pos; lia).
  rewrite Z.rem_mod_nonneg by lia.
  pose proof (Z.mod_pos_bound (nowMs / 1000) period Hp).
  repeat split; lia.
Qed.

Lemma getRemainingSeconds_range_witness :
  Totp.getRemainingSeconds 1700000010000 30 = 30 - (1700000010000 / 1000) mod 30 /\
  1 <= Totp.getRemainingSeconds 1700000010000 30 <= 30 /\
  ((1700000010000 / 1000) mod 30 = 0 -> Totp.getRemainingSeconds 1700000010000 30 = 30).
Proof. apply (getRemainingSeconds_range 1700000010000 30); lia. Defined.

(** ** Decimal rendering *)

Lemma length_append (s t : string) :
  String.length (String.append s t) = (String.length s + String.length t)%nat.
Proof. induction s as [|c r IH]; simpl; [reflexivity | now rewrite IH]. Qed.

Lemma allChars_append (p : ascii -> bool) (s t : string) :
  allChars p (String.append s t) = allChars p s && allChars p t.
Proof.
  induction s as [|c r IH]; simpl; [reflexivity|].
  rewrite IH. now destruct (p c).
Qed.

Lemma decimalValue_append (s t : string) :
  forall a, decimalValue a (String.append s t) = decimalValue (decimalValue a s) t.
Proof. induction s as [|c r IH]; intros a; simpl; [reflexivity | apply IH]. Qed.

Lemma append_assoc (s t u : string) :
  String.append (String.append s t) u = String.append s (String.append t u).
Proof.
  induction s as [|c r IH]; cbn [String.append]; [reflexivity | f_equal; exact IH].
Qed.

Lemma digitChar_digit (d : Z) :
  0 <= d < 10 -> isDigit (digitChar d) = true /\ code (digitChar d) - 48 = d.
Proof.
  intros H.
  assert (Hd : d = 0 \/ d = 1 \/ d = 2 \/ d = 3 \/ d = 4 \/ d = 5 \/ d = 6
               \/ d = 7 \/ d = 8 \/ d = 9) by lia.
  repeat (destruct Hd as [->|Hd]; [split; reflexivity|]).
  subst; split; reflexivity.
Qed.

Lemma digitsOf_S (f : nat) (n : Z) (acc : string) :
  digitsOf (S f) n acc =
  if n / 10 =? 0 then String (digitChar (n mod 10)) acc
  else digitsOf f (n / 10) (String (digitChar (n mod 10)) acc).
Proof. reflexivity. Qed.

(** With fuel [S fuel] the digits of a number below [2^(S fuel)] all come
    out: the text put before [acc] is made of digits, spells [n], and is no
    longer than any [d] with [n < 10^d]. *)
Lemma digitsOf_spec (fuel : nat) :
  forall n acc, 0 <= n < 2 ^ Z.of_nat (S fuel) ->
    exists ds, digitsOf (S fuel) n acc = String.append ds acc /\
               allChars isDigit ds = true /\
               (forall a, decimalValue a ds = a * 10 ^ Z.of_nat (String.length ds) + n) /\
               (forall d, 0 < d -> n < 10 ^ d -> Z.of_nat (String.length ds) <= d).
Proof.
  induction fuel as [|fuel IH]; intros n acc Hn.
  - assert (Hsmall : n / 10 = 0) by (apply Z.div_small; simpl in Hn; lia).
    assert (Hm : n mod 10 = n) by (apply Z.mod_small; simpl in Hn; lia).
    rewrite digitsOf_S, Hsmall, Hm. cbn [Z.eqb].
    destruct (digitChar_digit n) as [Hd Hc]; [simpl in Hn; lia|].
    exists (String (digitChar n) EmptyString). cbn [String.append allChars decimalValue String.length].
    rewrite Hd. repeat split; try reflexivity.
    + intros a. rewrite Hc. change (Z.of_nat 1) with 1. lia.
    + intros d Hd0 _. change (Z.of_nat 1) with 1. lia.
  - rewrite digitsOf_S.
    destruct (digitChar_digit (n mod 10)) as [Hd Hc]; [apply Z.mod_pos_bound; lia|].
    destruct (n / 10 =? 0) eqn:Hq.
    + apply Z.eqb_eq in Hq.
      exists (String (digitChar (n mod 10)) EmptyString).
      cbn [String.append allChars decimalValue String.length].
      rewrite Hd. repeat split; try reflexivity.
      * intros a. rewrite Hc. change (Z.of_nat 1) with 1.
        pose proof (Z.div_mod n 10). lia.
      * intros d Hd0 _. change (Z.of_nat 1) with 1. lia.
    + apply Z.eqb_neq in Hq.
      assert (Hbound : 0 <= n / 10 < 2 ^ Z.of_nat (S fuel)).
      { split; [apply Z.div_pos; lia|].
        apply Z.div_lt_upper_bound; [lia|].
        replace (Z.of_nat (S (S fuel))) with (Z.of_nat (S fuel) + 1) in Hn by lia.
        rewrite Z.pow_add_r in Hn by lia.
        change (2 ^ 1) with 2 in Hn. nia. }
      destruct (IH (n / 10) (String (digitChar (n mod 10)) acc) Hbound)
        as (ds & Heq & Hall & Hval & Hlen).
      exists (String.append ds (String (digitChar (n mod 10)) EmptyString)).
      rewrite Heq, append_assoc. cbn [String.append].
      split; [reflexivity|]. split; [|split].
      * rewrite allChars_append, Hall. cbn [allChars]. now rewrite Hd.
      * intros a. rewrite decimalValue_append, Hval. cbn [decimalValue].
        rewrite Hc, length_append. cbn [String.length].
        replace (Z.of_nat (String.length ds + 1)) with (Z.of_nat (String.length ds) + 1) by lia.
        rewrite Z.pow_add_r by lia. change (10 ^ 1) with 10.
        pose proof (Z.div_mod n 10). lia.
      * intros d Hd0 Hlt. rewrite length_append. cbn [String.length].
        assert (Hn10 : 10 <= n).
        { destruct (Z_lt_le_dec n 10) as [Hl|Hl]; [|exact Hl].
          exfalso. apply Hq. apply Z.div_small. lia. }
        assert (Hd2 : 1 < d).
        { destruct (Z_lt_le_dec 1 d) as [Hl|Hl]; [exact Hl|].
          exfalso. assert (d = 1) by lia. subst d. change (10 ^ 1) with 10 in Hlt. lia. }
        assert (Hq' : n / 10 < 10 ^ (d - 1)).
        { apply Z.div_lt_upper_bound; [lia|].
          replace d with (1 + (d - 1)) in Hlt by lia.
          rewrite Z.pow_add_r in Hlt by lia. change (10 ^ 1) with 10 in Hlt. lia. }
        pose proof (Hlen (d - 1) ltac:(lia) Hq'). lia.
Qed.

Lemma toString_spec (n : Z) :
  0 <= n ->
  allChars isDigit (toString n) = true /\
  decimalValue 0 (toString n) = n /\
  (forall d, 0 < d -> n < 10 ^ d -> Z.of_nat (String.length (toString n)) <= d).
Proof.
  intros Hn. unfold toString.
  replace (n <? 0) with false by (symmetry; apply Z.ltb_ge; exact Hn).
  rewrite Z.abs_eq by exact Hn.
  assert (Hb : 0 <= n < 2 ^ Z.of_nat (S (Z.to_nat (Z.log2 n)))).
  { split; [exact Hn|].
    pose proof (Z.log2_nonneg n).
    replace (Z.of_nat (S (Z.to_nat (Z.log2 n)))) with (Z.succ (Z.log2 n)) by lia.
    destruct (Z.eq_dec n 0) as [->|Hne]; [reflexivity|].
    apply Z.log2_spec. lia. }
  destruct (digitsOf_spec _ n EmptyString Hb) as (ds & Heq & Hall & Hval & Hlen).
  assert (Hnil : forall s, String.append s EmptyString = s).
  { induction s as [|c r IHs]; simpl; [reflexivity | now rewrite IHs]. }
  rewrite Heq, Hnil. repeat split; [exact Hall | rewrite Hval; lia | exact Hlen].
Qed.

Lemma repeatChar_zero (k : nat) :
  String.length (repeatChar "0" k) = k /\
  allChars isDigit (repeatChar "0" k) = true /\
  decimalValue 0 (repeatChar "0" k) = 0.
Proof.
  induction k as [|k (Hl & Ha & Hv)]; simpl; [auto|].
  rewrite Hl. change (isDigit "0") with true. simpl. auto.
Qed.

(** Padding a text that is itself within the limit of the engine: the
    call fails exactly when the target length is beyond that limit, and
    otherwise puts the missing characters in front. *)
Lemma padStart_outcome (s : string) (n : number) (c : ascii) :
  Z.of_nat (String.length s) <= maxStringLength ->
  padStart s n c =
  if beyondStringLimit n then Throw RangeError
  else Return (String.append
                 (repeatChar c (Z.to_nat (toLength n - Z.of_nat (String.length s)))) s).
Proof.
  intros Hs. unfold padStart, beyondStringLimit. cbv zeta.
  destruct (Z.leb_spec (toLength n) (Z.of_nat (String.length s))) as [Hle|Hgt].
  - replace (maxStringLength <? toLength n) with false
      by (symmetry; apply Z.ltb_ge; lia).
    replace (Z.to_nat (toLength n - Z.of_nat (String.length s))) with 0%nat by lia.
    reflexivity.
  - reflexivity.
Qed.

Lemma toLength_within (d : Z) :
  0 <= d -> beyondStringLimit (Int d) = false -> toLength (Int d) = d /\ d <= maxStringLength.
Proof.
  unfold beyondStringLimit, toLength, maxStringLength. intros Hd Hb.
  apply Z.ltb_ge in Hb. change (2 ^ 53 - 1) with 9007199254740991 in *. lia.
Qed.

(** Padding with zeros to a length the text does not exceed, when the
    call returns: the length is reached, the digits stay digits and the
    value is unchanged. *)
Lemma padStart_digits (s t : string) (d : Z) :
  allChars isDigit s = true ->
  Z.of_nat (String.length s) <= d -> Z.of_nat (String.length s) <= maxStringLength ->
  padStart s (Int d) "0" = Return t ->
  Z.of_nat (String.length t) = d /\
  allChars isDigit t = true /\
  decimalValue 0 t = decimalValue 0 s.
Proof.
  intros Hall Hlen Hmax Hpad.
  rewrite (padStart_outcome s (Int d) "0" Hmax) in Hpad.
  destruct (beyondStringLimit (Int d)) eqn:Hb; [discriminate Hpad|].
  destruct (toLength_within d ltac:(lia) Hb) as [Hd _].
  rewrite Hd in Hpad. injection Hpad as <-.
  destruct (repeatChar_zero (Z.to_nat (d - Z.of_nat (String.length s)))) as (Hl & Ha & Hv).
  rewrite length_append, allChars_append, decimalValue_append, Hl, Ha, Hv, Hall.
  repeat split; try reflexivity. lia.
Qed.

(** ** The 32-bit operators on small operands *)

Lemma toInt32_small (x : Z) : - 2 ^ 31 <= x < 2 ^ 31 -> toInt32 x = x.
Proof.
  intros H. unfold toInt32.
  rewrite Z.mod_small; [lia|].
  change (2 ^ 32) with (2 ^ 31 + 2 ^ 31). lia.
Qed.

Lemma land_low_bits (x : Z) (k : Z) :
  0 <= k -> Z.land x (2 ^ k - 1) = x mod 2 ^ k.
Proof.
  intros Hk. rewrite <- Z.land_ones by exact Hk.
  now rewrite Z.ones_equiv, Z.sub_1_r.
Qed.

(** [x & m] for a byte and a mask of [k] low bits. *)
Lemma bitand_mask (x : Z) (k : Z) :
  0 <= x < 256 -> 0 <= k <= 8 ->
  bitand x (2 ^ k - 1) = Z.land x (2 ^ k - 1) /\ 0 <= Z.land x (2 ^ k - 1) < 2 ^ k.
Proof.
  intros Hx Hk.
  assert (Hp : 0 < 2 ^ k <= 2 ^ 8).
  { split; [apply Z.pow_pos_nonneg; lia | apply Z.pow_le_mono_r; lia]. }
  change (2 ^ 8) with 256 in Hp.
  assert (Hb : 0 <= Z.land x (2 ^ k - 1) < 2 ^ k).
  { rewrite land_low_bits by lia. apply Z.mod_pos_bound. lia. }
  split; [|exact Hb].
  unfold bitand.
  rewrite (toInt32_small x) by (change (2 ^ 31) with 2147483648; lia).
  rewrite (toInt32_small (2 ^ k - 1)) by (change (2 ^ 31) with 2147483648; lia).
  apply toInt32_small. change (2 ^ 31) with 2147483648. lia.
Qed.

Lemma shl_small (x n : Z) :
  0 <= n < 32 -> 0 <= x -> x * 2 ^ n < 2 ^ 31 -> shl x n = x * 2 ^ n.
Proof.
  intros Hn Hx Hlt. unfold shl.
  assert (Hp : 1 <= 2 ^ n) by (pose proof (Z.pow_pos_nonneg 2 n); lia).
  rewrite (toInt32_small x) by nia.
  rewrite Z.mod_small by lia.
  rewrite Z.shiftl_mul_pow2 by lia.
  apply toInt32_small. nia.
Qed.

(** Disjoint bit ranges: or-ing a value below [2^k] into a multiple of
    [2^k] adds it. *)
Lemma lor_disjoint (a b k : Z) :
  0 <= k -> 0 <= b < 2 ^ k -> Z.lor (a * 2 ^ k) b = a * 2 ^ k + b.
Proof.
  intros Hk Hb.
  assert (Hland : Z.land (a * 2 ^ k) b = 0).
  { destruct (Z.eq_dec b 0) as [->|Hne]; [apply Z.land_0_r|].
    apply Z.bits_inj'. intros n Hn.
    rewrite Z.land_spec, Z.bits_0.
    destruct (Z_lt_le_dec n k) as [Hlt|Hge].
    - rewrite Z.mul_pow2_bits_low by lia. reflexivity.
    - rewrite (Z.bits_above_log2 b n); [apply andb_false_r|lia|].
      apply Z.log2_lt_pow2; [lia|].
      apply Z.lt_le_trans with (2 ^ k); [lia|].
      apply Z.pow_le_mono_r; lia. }
  rewrite <- Z.lxor_lor by exact Hland.
  symmetry. apply Z.add_nocarry_lxor. exact Hland.
Qed.

Lemma bitor_disjoint (a b k : Z) :
  0 <= k -> 0 <= b < 2 ^ k -> 0 <= a -> a * 2 ^ k + b < 2 ^ 31 ->
  bitor (a * 2 ^ k) b = a * 2 ^ k + b.
Proof.
  intros Hk Hb Ha Hlt. unfold bitor.
  assert (Hp : 0 < 2 ^ k) by (apply Z.pow_pos_nonneg; lia).
  rewrite (toInt32_small (a * 2 ^ k)) by nia.
  rewrite (toInt32_small b) by lia.
  rewrite lor_disjoint by assumption.
  apply toInt32_small. nia.
Qed.

(** ** The digest *)

Lemma wordBytes_bytes (w : Z) : Forall isByte (WebCrypto.wordBytes w).
Proof.
  unfold WebCrypto.wordBytes, isByte.
  repeat constructor; apply Z.mod_pos_bound; lia.
Qed.

Lemma sha1_digest (msg : list Z) :
  length (WebCrypto.sha1 msg) = 20%nat /\ Forall isByte (WebCrypto.sha1 msg).
Proof.
  unfold WebCrypto.sha1, WebCrypto.digestBytes.
  generalize (fold_left WebCrypto.compress
                (WebCrypto.blocks (length (WebCrypto.pad msg) / 64) (WebCrypto.pad msg))
                WebCrypto.initial).
  intros s. split; [reflexivity|].
  repeat (apply Forall_app; split); apply wordBytes_bytes.
Qed.

Lemma hmac_digest (key message : list Z) :
  length (WebCrypto.hmac key message) = 20%nat /\
  Forall isByte (WebCrypto.hmac key message).
Proof. unfold WebCrypto.hmac. apply sha1_digest. Qed.

Lemma nth_isByte (l : list Z) (i : nat) : Forall isByte l -> isByte (nth i l 0).
Proof.
  intros H. revert i. induction H as [|b l Hb _ IH]; intros [|i]; simpl;
    try (unfold isByte; lia); auto.
Qed.

(** Dynamic truncation of a digest of 20 bytes. *)
Section DynamicTruncation.

Variable digest : list Z.
Hypothesis digest_length : length digest = 20%nat.
Hypothesis digest_bytes : Forall isByte digest.

(** The offset is the low nibble of the last byte. *)
Lemma truncationOffset_spec :
  Totp.truncationOffset digest = specOffset digest /\ 0 <= specOffset digest <= 15.
Proof.
  unfold Totp.truncationOffset, specOffset. rewrite digest_length.
  change (Z.of_nat 20 - 1) with 19. unfold Totp.byteAt.
  change (19 <? 0) with false. cbv iota. change (Z.to_nat 19) with 19%nat.
  pose proof (nth_isByte digest 19 digest_bytes) as Hb.
  destruct (bitand_mask (nth 19 digest 0) 4 Hb ltac:(lia)) as [He Hr].
  change (2 ^ 4 - 1) with 15 in He, Hr. change (2 ^ 4) with 16 in Hr.
  change 0x0f with 15. change 0x0F with 15. rewrite He. split; [reflexivity | lia].
Qed.

Lemma byteAt_nth (i : Z) : 0 <= i -> Totp.byteAt digest i = nth (Z.to_nat i) digest 0.
Proof.
  intros Hi. unfold Totp.byteAt.
  replace (i <? 0) with false by (symmetry; apply Z.ltb_ge; exact Hi). reflexivity.
Qed.

(** The bitwise expression of the source agrees with the arithmetic
    reading of the specification and stays below [2^31]. *)
Lemma dynamicTruncation_spec :
  0 <= specOffset digest <= 15 /\
  Totp.dynamicTruncation digest = specBinary digest /\
  0 <= Totp.dynamicTruncation digest < 2 ^ 31.
Proof.
  destruct truncationOffset_spec as [Hoff Hrange].
  unfold Totp.dynamicTruncation, specBinary. rewrite Hoff.
  set (offset := specOffset digest) in *.
  rewrite !byteAt_nth by lia.
  replace (Z.to_nat offset + 1)%nat with (Z.to_nat (offset + 1)) by lia.
  replace (Z.to_nat offset + 2)%nat with (Z.to_nat (offset + 2)) by lia.
  replace (Z.to_nat offset + 3)%nat with (Z.to_nat (offset + 3)) by lia.
  pose proof (nth_isByte digest (Z.to_nat offset) digest_bytes) as H0.
  pose proof (nth_isByte digest (Z.to_nat (offset + 1)) digest_bytes) as H1.
  pose proof (nth_isByte digest (Z.to_nat (offset + 2)) digest_bytes) as H2.
  pose proof (nth_isByte digest (Z.to_nat (offset + 3)) digest_bytes) as H3.
  set (b0 := nth (Z.to_nat offset) digest 0) in *.
  set (b1 := nth (Z.to_nat (offset + 1)) digest 0) in *.
  set (b2 := nth (Z.to_nat (offset + 2)) digest 0) in *.
  set (b3 := nth (Z.to_nat (offset + 3)) digest 0) in *.
  unfold isByte in H0, H1, H2, H3.
  destruct (bitand_mask b0 7 H0 ltac:(lia)) as [E0 R0].
  destruct (bitand_mask b1 8 H1 ltac:(lia)) as [E1 R1].
  destruct (bitand_mask b2 8 H2 ltac:(lia)) as [E2 R2].
  destruct (bitand_mask b3 8 H3 ltac:(lia)) as [E3 R3].
  rewrite (land_low_bits b1 8), (Z.mod_small b1) in E1, R1 by (change (2 ^ 8) with 256; lia).
  rewrite (land_low_bits b2 8), (Z.mod_small b2) in E2, R2 by (change (2 ^ 8) with 256; lia).
  rewrite (land_low_bits b3 8), (Z.mod_small b3) in E3, R3 by (change (2 ^ 8) with 256; lia).
  change (2 ^ 7 - 1) with 127 in E0, R0. change (2 ^ 8 - 1) with 255 in E1, E2, E3.
  change 0x7f with 127. change 0xff with 255. change 0x7F with 127.
  rewrite E0, E1, E2, E3.
  set (m0 := Z.land b0 127) in *.
  change (2 ^ 7) with 128 in R0. change (2 ^ 8) with 256 in R1, R2, R3.
  rewrite (shl_small m0 24), (shl_small b1 16), (shl_small b2 8)
    by (change (2 ^ 24) with 16777216; change (2 ^ 16) with 65536;
        change (2 ^ 8) with 256; change (2 ^ 31) with 2147483648; lia).
  pose proof (bitor_disjoint m0 (b1 * 2 ^ 16) 24) as S1.
  pose proof (bitor_disjoint (m0 * 2 ^ 8 + b1) (b2 * 2 ^ 8) 16) as S2.
  pose proof (bitor_disjoint (m0 * 2 ^ 16 + b1 * 2 ^ 8 + b2) b3 8) as S3.
  change (2 ^ 24) with 16777216 in *. change (2 ^ 16) with 65536 in *.
  change (2 ^ 8) with 256 in *. change (2 ^ 31) with 2147483648 in *.
  specialize (S1 ltac:(lia) ltac:(lia) ltac:(lia) ltac:(lia)).
  specialize (S2 ltac:(lia) ltac:(lia) ltac:(lia) ltac:(lia)).
  specialize (S3 ltac:(lia) ltac:(lia) ltac:(lia) ltac:(lia)).
  rewrite S1.
  replace (m0 * 16777216 + b1 * 65536) with ((m0 * 256 + b1) * 65536) by lia.
  rewrite S2.
  replace ((m0 * 256 + b1) * 65536 + b2 * 256)
    with ((m0 * 65536 + b1 * 256 + b2) * 256) by lia.
  rewrite S3.
  repeat split; lia.
Qed.

End DynamicTruncation.

(** ** Code generation *)

(** The text of a number below [2^31] has at most ten characters, far
    within the limit of the engine. *)
Lemma toString_short (n : Z) :
  0 <= n < 2 ^ 31 -> Z.of_nat (String.length (toString n)) <= maxStringLength.
Proof.
  intros Hn.
  destruct (toString_spec n) as (_ & _ & Hlen); [lia|].
  specialize (Hlen 10 ltac:(lia)).
  change (2 ^ 31) with 2147483648 in Hn. change (10 ^ 10) with 10000000000 in Hlen.
  unfold maxStringLength. lia.
Qed.

Lemma rem_pow10_bound (binary d : Z) :
  0 <= binary < 2 ^ 31 -> 0 <= d ->
  Z.rem binary (10 ^ d) = binary mod 10 ^ d /\
  0 <= binary mod 10 ^ d < 2 ^ 31 /\ binary mod 10 ^ d < 10 ^ d.
Proof.
  intros Hb Hd.
  assert (Hpow : 0 < 10 ^ d) by (apply Z.pow_pos_nonneg; lia).
  rewrite Z.rem_mod_nonneg by lia.
  pose proof (Z.mod_pos_bound binary (10 ^ d) Hpow).
  pose proof (Z.mod_le binary (10 ^ d) ltac:(lia) Hpow).
  repeat split; lia.
Qed.

(** The last step of a call on a truncated value: it fails exactly when
    [digits] asks for a text longer than the engine builds. *)
Lemma renderOtp_outcome (binary : Z) (digits : number) :
  0 <= binary < 2 ^ 31 ->
  if beyondStringLimit digits
  then Totp.renderOtp binary digits = Throw RangeError
  else exists c, Totp.renderOtp binary digits = Return c.
Proof.
  intros Hb. unfold Totp.renderOtp.
  destruct digits as [d| |[|]].
  - destruct (Z.ltb_spec d 0) as [Hneg|Hpos].
    + replace (beyondStringLimit (Int d)) with false; [eauto|].
      unfold beyondStringLimit, toLength, maxStringLength.
      symmetry. apply Z.ltb_ge. change (2 ^ 53 - 1) with 9007199254740991. lia.
    + destruct (rem_pow10_bound binary d Hb Hpos) as (-> & Hr & _). cbv zeta.
      rewrite (padStart_outcome _ (Int d) "0" (toString_short _ Hr)).
      destruct (beyondStringLimit (Int d)); cbn [bindC]; eauto.
  - change (beyondStringLimit NaN) with false. cbn. eauto.
  - rewrite (padStart_outcome _ (Infinity true) "0" (toString_short _ Hb)).
    change (beyondStringLimit (Infinity true)) with true. reflexivity.
  - change (beyondStringLimit (Infinity false)) with false. cbn. eauto.
Qed.

(** With a positive [digits], a returned text is the zero-padded
    remainder. *)
Lemma renderOtp_digits (binary digits : Z) (c : Totp.codeText) :
  0 <= binary < 2 ^ 31 -> 0 < digits ->
  Totp.renderOtp binary (Int digits) = Return c ->
  exists s, c = Totp.Digits s /\
            padStart (toString (binary mod 10 ^ digits)) (Int digits) "0" = Return s /\
            Z.of_nat (String.length s) = digits /\
            allChars isDigit s = true /\
            decimalValue 0 s = binary mod 10 ^ digits.
Proof.
  intros Hb Hd Hrun. unfold Totp.renderOtp in Hrun.
  replace (digits <? 0) with false in Hrun by (symmetry; apply Z.ltb_ge; lia).
  destruct (rem_pow10_bound binary digits Hb ltac:(lia)) as (Hrem & Hr & Hlt).
  cbv zeta in Hrun. rewrite Hrem in Hrun.
  destruct (toString_spec (binary mod 10 ^ digits)) as (Hall & Hval & Hlen); [lia|].
  destruct (padStart (toString (binary mod 10 ^ digits)) (Int digits) "0")
    as [s|e] eqn:Hpad; [|discriminate Hrun].
  cbn [bindC] in Hrun. injection Hrun as <-.
  destruct (padStart_digits _ s digits Hall (Hlen digits Hd Hlt) (toString_short _ Hr) Hpad)
    as (Pl & Pa & Pv).
  exists s. rewrite Pv, Hval. auto.
Qed.

Lemma renderOtp_zero (binary : Z) :
  Totp.renderOtp binary (Int 0) = Return (Totp.Digits "0").
Proof.
  unfold Totp.renderOtp. change (0 <? 0) with false. cbv iota zeta.
  change (10 ^ 0) with 1. rewrite Z.rem_1_r. reflexivity.
Qed.

(** What a call does once the secret has decoded to [key]. *)
Lemma generateTOTP_decoded (now : Z) (secret : string) (opts : Totp.options) (key : list Z) :
  Totp.base32Decode secret = Return key ->
  Totp.generateTOTP now secret opts =
  match key with
  | [] => Throw DataError
  | _ => Totp.renderOtp
           (Totp.dynamicTruncation (WebCrypto.hmac key (counterBytes now opts)))
           (default (Int 6) (Totp.optDigits opts))
  end.
Proof.
  intros Hkey. unfold Totp.generateTOTP. rewrite Hkey. cbn [bindC].
  unfold Totp.hmacSha1. destruct key; reflexivity.
Qed.

(** C4. A successful call with a positive [digits] returns a text of
    exactly [digits] decimal digits, zero-padded on the left, whose value
    is [binary mod 10^digits], where [binary] is the dynamic truncation of
    the 20-byte HMAC digest: offset [digest[19] & 0x0F], four bytes from
    the offset, the first masked with [0x7F], combined big-endian into a
    non-negative number below [2^31]. *)
Theorem generateTOTP_code_format
  (now digits : Z) (secret : string) (opts : Totp.options) (c : Totp.codeText) :
  default (Int 6) (Totp.optDigits opts) = Int digits ->
  0 < digits ->
  Totp.generateTOTP now secret opts = Return c ->
  exists key digest s,
    Totp.base32Decode secret = Return key /\
    Totp.hmacSha1 key (counterBytes now opts) = Return digest /\
    length digest = 20%nat /\
    0 <= specOffset digest <= 15 /\
    0 <= specBinary digest < 2 ^ 31 /\
    c = Totp.Digits s /\
    padStart (toString (specBinary digest mod 10 ^ digits)) (Int digits) "0" = Return s /\
    Z.of_nat (String.length s) = digits /\
    allChars isDigit s = true /\
    decimalValue 0 s = specBinary digest mod 10 ^ digits.
Proof.
  intros Hdigits Hd Hrun.
  destruct (Totp.base32Decode secret) as [key|e] eqn:Hkey.
  2:{ unfold Totp.generateTOTP in Hrun. rewrite Hkey in Hrun. discriminate. }
  rewrite (generateTOTP_decoded now secret opts key Hkey), Hdigits in Hrun.
  destruct key as [|k0 key]; [discriminate|].
  set (digest := WebCrypto.hmac (k0 :: key) (counterBytes now opts)) in *.
  destruct (hmac_digest (k0 :: key) (counterBytes now opts)) as [Hlen Hbytes].
  fold digest in Hlen, Hbytes.
  destruct (dynamicTruncation_spec digest Hlen Hbytes) as (Hoff & Heq & Hrange).
  destruct (renderOtp_digits (Totp.dynamicTruncation digest) digits c Hrange Hd Hrun)
    as (s & Hs & Hpad & Hl & Ha & Hv).
  rewrite Heq in *.
  exists (k0 :: key), digest, s.
  repeat split; auto; lia.
Qed.

Lemma generateTOTP_code_format_witness :
  exists s, Totp.generateTOTP 0 "GEZDGNBVGY3TQOJQGEZDGNBVGY3TQOJQ"
              (Totp.Options None (Some (Int 8)) (Some 59000)) = Return (Totp.Digits s) /\
            Z.of_nat (String.length s) = 8 /\
            allChars isDigit s = true.
Proof.
  destruct (generateTOTP_code_format 0 8 "GEZDGNBVGY3TQOJQGEZDGNBVGY3TQOJQ"
              (Totp.Options None (Some (Int 8)) (Some 59000)) (Totp.Digits "94287082"))
    as (key & digest & s & _ & _ & _ & _ & _ & Hc & _ & Hl & Ha & _).
  - reflexivity.
  - lia.
  - vm_compute. reflexivity.
  - exists s. split; [rewrite <- Hc; vm_compute; reflexivity|]. split; assumption.
Defined.

(** The standard vectors of RFC 6238 (SHA-1, 8 digits) for the secret
    "12345678901234567890", at 59 s and at 1111111109 s. *)
Example generateTOTP_rfc6238 :
  Totp.generateTOTP 0 "GEZDGNBVGY3TQOJQGEZDGNBVGY3TQOJQ"
    (Totp.Options None (Some (Int 8)) (Some 59000)) = Return (Totp.Digits "94287082") /\
  Totp.generateTOTP 0 "GEZDGNBVGY3TQOJQGEZDGNBVGY3TQOJQ"
    (Totp.Options (Some (Int 30)) (Some (Int 8)) (Some 1111111109000))
    = Return (Totp.Digits "07081804").
Proof. split; vm_compute; reflexivity. Qed.

(** C1, as the code has it. No check of [digits] or [period] exists, and
    no failure for them: a call with a non-positive [digits] or a
    non-positive [period], whose secret decodes to a non-empty key, is not
    rejected.  With a non-positive [digits] it returns a text, whatever
    the period; with [digits = 0] that text is "0".  With a non-positive
    [period] it returns a text as well, unless [digits] asks for a text
    longer than the engine builds, in which case the padding raises a
    RangeError. *)
Theorem generateTOTP_nonpositive_digits_or_period
  (now : Z) (secret : string) (opts : Totp.options) (key : list Z) :
  Totp.base32Decode secret = Return key -> key <> [] ->
  (nonPositive (default (Int 6) (Totp.optDigits opts)) = true ->
   exists c, Totp.generateTOTP now secret opts = Return c /\
             (default (Int 6) (Totp.optDigits opts) = Int 0 -> c = Totp.Digits "0")) /\
  (nonPositive (default (Int 30) (Totp.optPeriod opts)) = true ->
   if beyondStringLimit (default (Int 6) (Totp.optDigits opts))
   then Totp.generateTOTP now secret opts = Throw RangeError
   else exists c, Totp.generateTOTP now secret opts = Return c).
Proof.
  intros Hkey Hne.
  rewrite (generateTOTP_decoded now secret opts key Hkey).
  destruct key as [|k0 key]; [contradiction|].
  destruct (hmac_digest (k0 :: key) (counterBytes now opts)) as [Hlen Hbytes].
  destruct (dynamicTruncation_spec _ Hlen Hbytes) as (_ & _ & Hrange).
  pose proof (renderOtp_outcome _ (default (Int 6) (Totp.optDigits opts)) Hrange) as Hout.
  split.
  - intros Hdigits.
    assert (Hlimit : beyondStringLimit (default (Int 6) (Totp.optDigits opts)) = false).
    { destruct (default (Int 6) (Totp.optDigits opts)) as [d| |[|]];
        try discriminate Hdigits; try reflexivity.
      cbn [nonPositive] in Hdigits. apply Z.leb_le in Hdigits.
      unfold beyondStringLimit, toLength, maxStringLength.
      apply Z.ltb_ge. change (2 ^ 53 - 1) with 9007199254740991. lia. }
    rewrite Hlimit in Hout. destruct Hout as [c Hc].
    exists c. split; [exact Hc|].
    intros Hzero. rewrite Hzero, renderOtp_zero in Hc. congruence.
  - intros _. exact Hout.
Qed.

Lemma generateTOTP_nonpositive_digits_or_period_witness :
  (exists c, Totp.generateTOTP 0 "JBSWY3DPEHPK3PXP"
               (Totp.Options (Some (Int 30)) (Some (Int 0)) (Some 59000)) = Return c /\
             (Int 0 = Int 0 -> c = Totp.Digits "0")) /\
  (exists c, Totp.generateTOTP 0 "JBSWY3DPEHPK3PXP"
               (Totp.Options (Some (Int (-30))) (Some (Int 6)) (Some 59000)) = Return c) /\
  Totp.generateTOTP 0 "JBSWY3DPEHPK3PXP"
    (Totp.Options (Some (Int 0)) (Some (Int 536870889)) (Some 59000)) = Throw RangeError.
Proof.
  assert (Hkey : Totp.base32Decode "JBSWY3DPEHPK3PXP"
                 = Return [72; 101; 108; 108; 111; 33; 222; 173; 190; 239])
    by (vm_compute; reflexivity).
  split; [|split].
  - destruct (generateTOTP_nonpositive_digits_or_period 0 "JBSWY3DPEHPK3PXP"
                (Totp.Options (Some (Int 30)) (Some (Int 0)) (Some 59000)) _ Hkey)
      as [Hdigits _]; [discriminate|].
    apply Hdigits. reflexivity.
  - destruct (generateTOTP_nonpositive_digits_or_period 0 "JBSWY3DPEHPK3PXP"
                (Totp.Options (Some (Int (-30))) (Some (Int 6)) (Some 59000)) _ Hkey)
      as [_ Hperiod]; [discriminate|].
    exact (Hperiod eq_refl).
  - destruct (generateTOTP_nonpositive_digits_or_period 0 "JBSWY3DPEHPK3PXP"
                (Totp.Options (Some (Int 0)) (Some (Int 536870889)) (Some 59000)) _ Hkey)
      as [_ Hperiod]; [discriminate|].
    exact (Hperiod eq_refl).
Defined.

(** C1 as stated fails: calls with [digits = 0], with [period = 0] and
    with a negative period all return a text. *)
Lemma generateTOTP_nonpositive_not_rejected :
  Totp.generateTOTP 0 "JBSWY3DPEHPK3PXP"
    (Totp.Options (Some (Int 30)) (Some (Int 0)) (Some 59000))
    = Return (Totp.Digits "0") /\
  Totp.generateTOTP 0 "JBSWY3DPEHPK3PXP"
    (Totp.Options (Some (Int 0)) (Some (Int 6)) (Some 59000))
    = Return (Totp.Digits "282760") /\
  Totp.generateTOTP 0 "JBSWY3DPEHPK3PXP"
    (Totp.Options (Some (Int (-30))) (Some (Int 6)) (Some 59000))
    = Return (Totp.Digits "417327").
Proof. repeat split; vm_compute; reflexivity. Qed.

(** ** Provisioning URIs *)

(** A text that starts with neither a digit, a sign nor white space holds
    no integer for [parseInt]: the result is NaN, not an exception. *)
Lemma parseInt10_NaN (c : ascii) (t : string) :
  startsNumber c = false -> parseInt10 (String c t) = NaN.
Proof.
  each_ascii c;
    try (intros H; vm_compute in H; discriminate H);
    intros _; reflexivity.
Qed.

Lemma parseUrl_returns (url : URL) (path : string) :
  protocol url = "otpauth:" ->
  decodeURIComponent (slice 1 (pathname url)) = Return path ->
  exists r, Totp.parseUrl url = Return r /\
    Totp.type r = hostname url /\
    Totp.digits r = parseInt10 (orElse (get (searchParams url) "digits") "6") /\
    Totp.period r = parseInt10 (orElse (get (searchParams url) "period") "30").
Proof.
  intros Hproto Hpath. unfold Totp.parseUrl.
  rewrite Hproto, Hpath. cbn [bindC].
  change (negb ("otpauth:" =? "otpauth:")%string) with false. cbv iota.
  destruct (Totp.labelParts path) as [i a].
  eexists. split; [reflexivity|]. cbn. auto.
Qed.

(** C2, as the code has it. For a URI with the [otpauth] scheme and a
    decodable path, parsing succeeds whatever the text of the [digits] and
    [period] parameters: each field is [parseInt] of the text (of the
    default when the parameter is absent or empty), and a text that starts
    with neither a digit, a sign nor white space gives NaN in the field
    instead of an error. *)
Theorem parseOtpAuthUri_digits_period_by_parseInt
  (uri : string) (url : URL) (path : string) :
  URL_new uri = Return url ->
  protocol url = "otpauth:" ->
  decodeURIComponent (slice 1 (pathname url)) = Return path ->
  exists r, Totp.parseOtpAuthUri uri = Return r /\
    Totp.digits r = parseInt10 (orElse (get (searchParams url) "digits") "6") /\
    Totp.period r = parseInt10 (orElse (get (searchParams url) "period") "30") /\
    (forall c t, get (searchParams url) "digits" = Some (String c t) ->
                 startsNumber c = false -> Totp.digits r = NaN) /\
    (forall c t, get (searchParams url) "period" = Some (String c t) ->
                 startsNumber c = false -> Totp.period r = NaN).
Proof.
  intros Hurl Hproto Hpath.
  destruct (parseUrl_returns url path Hproto Hpath) as (r & Hr & _ & Hd & Hp).
  exists r. unfold Totp.parseOtpAuthUri. rewrite Hurl. cbn [bindC]. rewrite Hr.
  split; [reflexivity|]. split; [exact Hd|]. split; [exact Hp|]. split.
  - intros c t Hget Hc. rewrite Hd, Hget. cbn [orElse]. apply parseInt10_NaN, Hc.
  - intros c t Hget Hc. rewrite Hp, Hget. cbn [orElse]. apply parseInt10_NaN, Hc.
Qed.

Lemma parseOtpAuthUri_digits_period_by_parseInt_witness :
  exists r, Totp.parseOtpAuthUri "otpauth://totp/Example:alice?secret=ABC123&digits=abc&period=30"
            = Return r /\ Totp.digits r = NaN /\ Totp.period r = Int 30.
Proof.
  destruct (parseOtpAuthUri_digits_period_by_parseInt
              "otpauth://totp/Example:alice?secret=ABC123&digits=abc&period=30"
              (Url "otpauth:" "totp" "/Example:alice"
                   [("secret", "ABC123"); ("digits", "abc"); ("period", "30")])
              "Example:alice")
    as (r & Hr & _ & Hp & Hd & _).
  - vm_compute. reflexivity.
  - reflexivity.
  - vm_compute. reflexivity.
  - exists r. split; [exact Hr|]. split.
    + apply (Hd "a"%char "bc"); reflexivity.
    + rewrite Hp. vm_compute. reflexivity.
Defined.

(** The sample URI of section 8. *)
Example parseOtpAuthUri_sample :
  Totp.parseOtpAuthUri
    "otpauth://totp/Example:alice@example.com?secret=ABC123&issuer=Example&digits=6&period=30"
  = Return (Totp.AccountData "totp" "Example" "alice@example.com" "ABC123" "SHA1"
                             (Int 6) (Int 30)).
Proof. vm_compute. reflexivity. Qed.

(** C2 as stated fails: a URI whose [digits] parameter is "abc" is
    parsed without error into a record whose [digits] field is NaN, and
    likewise for [period]. *)
Lemma parseOtpAuthUri_non_numeric_digits_returns :
  Totp.parseOtpAuthUri "otpauth://totp/Example:alice?secret=ABC123&digits=abc"
    = Return (Totp.AccountData "totp" "Example" "alice" "ABC123" "SHA1" NaN (Int 30)) /\
  Totp.parseOtpAuthUri "otpauth://totp/Example:alice?secret=ABC123&period=abc"
    = Return (Totp.AccountData "totp" "Example" "alice" "ABC123" "SHA1" (Int 6) NaN).
Proof. split; vm_compute; reflexivity. Qed.

(** The split of the path, in general: without a colon the whole path is
    the account and the issuer is empty; with one, the issuer is the text
    before the first colon and the account is the text between the first
    colon and the second (or the end). *)
Lemma split_breakAt (c : ascii) (s : string) :
  exists ps, split c s = fst (breakAt (Ascii.eqb c) s) :: ps.
Proof.
  induction s as [|d r (ps & IH)]; simpl; [eauto|].
  rewrite (Ascii.eqb_sym c d).
  destruct (Ascii.eqb d c); simpl; [eauto|].
  rewrite IH. destruct (breakAt (Ascii.eqb c) r). simpl. eauto.
Qed.

Lemma indexOf_lower_bound (s : string) (c : ascii) : -1 <= indexOf s c.
Proof.
  induction s as [|d r IH]; simpl; [lia|].
  destruct (Ascii.eqb d c); [lia|].
  destruct (indexOf r c =? -1); lia.
Qed.

Lemma includes_append_colon (a b : string) :
  includes (String.append a (String ":" b)) ":" = true.
Proof.
  unfold includes. induction a as [|d r IH]; simpl; [reflexivity|].
  destruct (Ascii.eqb d ":"); [reflexivity|].
  pose proof (indexOf_lower_bound (String.append r (String ":" b)) ":") as Hlb.
  destruct (indexOf (String.append r (String ":" b)) ":" =? -1) eqn:E;
    [discriminate IH|].
  apply Z.eqb_neq in E. apply negb_true_iff, Z.eqb_neq. lia.
Qed.

Lemma split_append_colon (a b : string) :
  includes a ":" = false ->
  split ":" (String.append a (String ":" b)) = a :: split ":" b.
Proof.
  unfold includes. induction a as [|d r IH]; [reflexivity|].
  cbn [indexOf split String.append].
  destruct (Ascii.eqb d ":"); [intros H; discriminate H|].
  pose proof (indexOf_lower_bound r ":") as Hlb.
  destruct (indexOf r ":" =? -1) eqn:E.
  - intros _. rewrite IH by reflexivity. reflexivity.
  - intros H. apply negb_false_iff, Z.eqb_eq in H. apply Z.eqb_neq in E. lia.
Qed.

Lemma labelParts_spec (a b : string) :
  includes a ":" = false ->
  Totp.labelParts a = (EmptyString, a) /\
  Totp.labelParts (String.append a (String ":" b)) = (a, fst (breakAt (Ascii.eqb ":") b)).
Proof.
  intros Ha. unfold Totp.labelParts. rewrite Ha, includes_append_colon.
  split; [reflexivity|].
  rewrite split_append_colon by exact Ha.
  destruct (split_breakAt ":" b) as [ps ->]. reflexivity.
Qed.

(** C3, at the input where the code departs from it: with two colons in
    the path the account is the text between them, and what follows the
    second colon is dropped. *)
Theorem parseOtpAuthUri_second_colon_drops_rest :
  Totp.parseOtpAuthUri "otpauth://totp/Example:alice:extra?secret=ABC123"
    = Return (Totp.AccountData "totp" "Example" "alice" "ABC123" "SHA1" (Int 6) (Int 30)) /\
  Totp.labelParts "Example:alice:extra" = ("Example", "alice").
Proof. split; vm_compute; reflexivity. Qed.

(** ** The registry *)

Lemma findIndex_absent {A} (p : A -> bool) (l : list A) :
  (forall x, In x l -> p x = false) -> findIndex p l = -1.
Proof.
  induction l as [|x r IH]; intros H; simpl; [reflexivity|].
  rewrite (H x) by (left; reflexivity).
  rewrite IH by (intros y Hy; apply H; right; exact Hy). reflexivity.
Qed.

Lemma findIndex_found {A} (p : A -> bool) (l : list A) :
  findIndex p l <> -1 ->
  0 <= findIndex p l /\
  exists x, l !! Z.to_nat (findIndex p l) = Some x /\ p x = true.
Proof.
  induction l as [|x r IH]; simpl; [congruence|].
  destruct (p x) eqn:Hp.
  - intros _. split; [lia|]. exists x. auto.
  - destruct (findIndex p r =? -1) eqn:E; [congruence|].
    apply Z.eqb_neq in E. intros _.
    destruct (IH E) as (Hge & y & Hy & Hpy).
    split; [lia|]. exists y. split; [|exact Hpy].
    replace (Z.to_nat (1 + findIndex p r)) with (S (Z.to_nat (findIndex p r))) by lia.
    exact Hy.
Qed.

Lemma strictEq_true (a b : option jsval) : strictEq a b = true <-> a = b.
Proof. unfold strictEq. apply bool_decide_eq_true. Qed.

Lemma strictEq_false (a b : option jsval) : strictEq a b = false <-> a <> b.
Proof. unfold strictEq. apply bool_decide_eq_false. Qed.

(** C9. Updating an identifier that no stored record carries changes
    nothing and raises nothing: the call returns and the storage is as it
    was. *)
Theorem updateAccount_unknown_id_is_noop
  (id : string) (updates : account) (st : local) :
  (forall acc : account, In acc (registry st) -> acc !! "id" <> Some (JStr id)) ->
  updateAccount id updates st = (Return tt, st) /\
  registry (exec (updateAccount id updates) st) = registry st.
Proof.
  intros Habsent.
  assert (H : updateAccount id updates st = (Return tt, st)).
  { unfold updateAccount, bind, getAccounts.
    rewrite findIndex_absent; [reflexivity|].
    intros acc Hacc. apply strictEq_false. apply Habsent. exact Hacc. }
  split; [exact H|]. unfold exec. rewrite H. reflexivity.
Qed.

Lemma updateAccount_unknown_id_is_noop_witness :
  updateAccount "zzz" {[ "issuer" := JStr "Other" ]}
    (exec (addAccount 1 (sampleAccount "a")) emptyLocal)
  = (Return tt, exec (addAccount 1 (sampleAccount "a")) emptyLocal).
Proof.
  apply (updateAccount_unknown_id_is_noop "zzz" {[ "issuer" := JStr "Other" ]}
           (exec (addAccount 1 (sampleAccount "a")) emptyLocal)).
  intros acc [<-|[]]. vm_compute. discriminate.
Defined.

Lemma importData_invalid (data : payload) (st : local) :
  truthy (version data) && truthyField (accounts data) = false ->
  importData data st = (Return (Failure InvalidDataFormat), st).
Proof.
  intros H. unfold importData, catch.
  rewrite <- negb_andb, H. reflexivity.
Qed.

Lemma importData_array (data : payload) (l : list account) (st : local) :
  truthy (version data) = true -> accounts data = Some (Array l) ->
  let new := List.filter
               (fun acc : account =>
                  negb (existsb (fun existing : account =>
                                   strictEq (existing !! "id") (acc !! "id"))
                                (registry st))) l in
  importData data st =
    (Return (Success (Z.of_nat (length new)) (Z.of_nat (length l) - Z.of_nat (length new))),
     if 0 <? Z.of_nat (length new)
     then Local (Some (registry st ++ new)%list) (appSettings st) else st).
Proof.
  intros Hv Ha new. unfold importData, catch.
  rewrite Hv, Ha. cbn [truthyField negb orb].
  unfold bind, getAccounts, filterAccounts, ret. fold (registry st). fold new.
  cbn [lengthOf].
  destruct (0 <? Z.of_nat (length new)); reflexivity.
Qed.



Lemma filter_none {A} (f : A -> bool) (l : list A) :
  (forall x, In x l -> f x = false) -> List.filter f l = [].
Proof.
  induction l as [|x r IH]; intros H; simpl; [reflexivity|].
  rewrite (H x) by (left; reflexivity).
  apply IH. intros y Hy. apply H. right. exact Hy.
Qed.

Lemma isNew_after_import (reg l : list account) (acc : account) :
  In acc l -> isNew (reg ++ List.filter (isNew reg) l) acc = false.
Proof.
  intros Hin. unfold isNew at 1. rewrite existsb_app.
  apply negb_false_iff, orb_true_iff.
  destruct (isNew reg acc) eqn:Hnew.
  - right. apply existsb_exists. exists acc. split.
    + apply filter_In. split; assumption.
    + apply strictEq_true. reflexivity.
  - left. unfold isNew in Hnew. apply negb_false_iff in Hnew. exact Hnew.
Qed.

Lemma importData_not_array (data : payload) (st : local) :
  (forall l, accounts data <> Some (Array l)) ->
  exists e, importData data st = (Return (Failure e), st).
Proof.
  intros Hna. unfold importData, catch.
  destruct (negb (truthy (version data)) || negb (truthyField (accounts data)));
    [eexists; reflexivity|].
  unfold bind, getAccounts, filterAccounts.
  destruct (accounts data) as [[l|v]|]; [destruct (Hna l); reflexivity| |];
    eexists; reflexivity.
Qed.

(** C8. After a first successful import of a payload, importing the same
    payload again imports nothing, reports every account of the payload as
    skipped, and leaves the storage as it was. *)
Theorem importData_second_import_skips_all
  (data : payload) (st st' : local) (imported skipped : Z) :
  importData data st = (Return (Success imported skipped), st') ->
  exists l, accounts data = Some (Array l) /\
            importData data st' = (Return (Success 0 (Z.of_nat (length l))), st') /\
            registry (exec (importData data) st') = registry st'.
Proof.
  intros Hfirst.
  destruct (accounts data) as [[l|v]|] eqn:Ha.
  2,3: destruct (importData_not_array data st) as [e He];
       [intros l; rewrite Ha; discriminate | rewrite He in Hfirst; discriminate].
  destruct (truthy (version data)) eqn:Hv.
  2:{ rewrite importData_invalid in Hfirst by (rewrite Hv; reflexivity). discriminate. }
  exists l. split; [reflexivity|].
  rewrite (importData_array data l st Hv Ha) in Hfirst.
  fold (isNew (registry st)) in Hfirst.
  assert (Hreg : registry st' = (registry st ++ List.filter (isNew (registry st)) l)%list).
  { pose proof (f_equal snd Hfirst) as Hst. cbn [snd] in Hst. rewrite <- Hst.
    destruct (0 <? Z.of_nat (length (List.filter (isNew (registry st)) l))) eqn:Hlen.
    - reflexivity.
    - apply Z.ltb_ge in Hlen.
      destruct (List.filter (isNew (registry st)) l); [|simpl in Hlen; lia].
      rewrite app_nil_r. reflexivity. }
  assert (Hsecond : importData data st' = (Return (Success 0 (Z.of_nat (length l))), st')).
  { rewrite (importData_array data l st' Hv Ha).
    fold (isNew (registry st')). rewrite Hreg.
    rewrite filter_none by (intros acc Hacc; apply isNew_after_import; exact Hacc).
    cbn [length]. change (0 <? Z.of_nat 0) with false. cbv iota.
    rewrite Z.sub_0_r. reflexivity. }
  split; [exact Hsecond|]. unfold exec. rewrite Hsecond. reflexivity.
Qed.

Lemma importData_second_import_skips_all_witness :
  exists l, accounts (samplePayload (Some (JStr "1.0")) [sampleAccount "a"; sampleAccount "b"])
              = Some (Array l) /\
            importData (samplePayload (Some (JStr "1.0")) [sampleAccount "a"; sampleAccount "b"])
              (Local (Some [sampleAccount "a"; sampleAccount "b"]) None)
            = (Return (Success 0 (Z.of_nat (length l))),
               Local (Some [sampleAccount "a"; sampleAccount "b"]) None).
Proof.
  destruct (importData_second_import_skips_all
              (samplePayload (Some (JStr "1.0")) [sampleAccount "a"; sampleAccount "b"])
              (Local (Some [sampleAccount "a"]) None)
              (Local (Some [sampleAccount "a"; sampleAccount "b"]) None) 1 1)
    as (l & Hl & Hsecond & _).
  - vm_compute. reflexivity.
  - exists l. split; assumption.
Defined.

(** *** Identifiers stay unique under admissible requests *)

Lemma registry_addAccount (now : Z) (record : account) (st : local) :
  registry (exec (addAccount now record) st) =
  (registry st ++ [ <["order" := JNum (Z.of_nat (length (registry st)))]>
                      (<["createdAt" := JNum now]> record) ])%list.
Proof. reflexivity. Qed.

Lemma registry_deleteAccount (id : string) (st : local) :
  registry (exec (deleteAccount id) st) =
  List.filter (fun acc : account => negb (strictEq (acc !! "id") (Some (JStr id))))
              (registry st).
Proof. reflexivity. Qed.

Lemma registry_importData (data : payload) (st : local) :
  registry (exec (importData data) st) = registry st \/
  exists l, accounts data = Some (Array l) /\
            registry (exec (importData data) st)
            = (registry st ++ List.filter (isNew (registry st)) l)%list.
Proof.
  destruct (accounts data) as [[l|v]|] eqn:Ha.
  2,3: left; destruct (importData_not_array data st) as [e He];
       [intros l; rewrite Ha; discriminate | unfold exec; rewrite He; reflexivity].
  destruct (truthy (version data)) eqn:Hv.
  - unfold exec. rewrite (importData_array data l st Hv Ha). cbn [snd].
    fold (isNew (registry st)).
    destruct (0 <? Z.of_nat (length (List.filter (isNew (registry st)) l)));
      [right; exists l; split; reflexivity | left; reflexivity].
  - left. unfold exec.
    rewrite importData_invalid by (rewrite Hv; reflexivity). reflexivity.
Qed.

Lemma added_record_id (now n : Z) (record : account) :
  (<["order" := JNum n]> (<["createdAt" := JNum now]> record)) !! "id" = record !! "id".
Proof. rewrite !lookup_insert_ne by discriminate. reflexivity. Qed.

Lemma ids_app (l k : list account) : ids (l ++ k) = (ids l ++ ids k)%list.
Proof. unfold ids. apply map_app. Qed.

Lemma NoDup_ids_filter (f : account -> bool) (l : list account) :
  NoDup (ids l) -> NoDup (ids (List.filter f l)).
Proof.
  unfold ids. induction l as [|a r IH]; simpl; intros H; [exact H|].
  apply NoDup_cons in H as [Hnotin Hr].
  destruct (f a); simpl; [|apply IH; exact Hr].
  apply NoDup_cons. split; [|apply IH; exact Hr].
  intros Hin. apply Hnotin.
  apply list_elem_of_In, in_map_iff in Hin as (b & Hb & Hbin).
  apply filter_In in Hbin as [Hbin _].
  apply list_elem_of_In, in_map_iff. exists b. auto.
Qed.

Lemma isNew_id_fresh (reg : list account) (acc : account) :
  isNew reg acc = true -> ~ In (acc !! "id") (ids reg).
Proof.
  unfold isNew, ids. intros Hnew Hin.
  apply negb_true_iff in Hnew.
  apply in_map_iff in Hin as (e & He & Hein).
  assert (Hex : existsb (fun e : account => strictEq (e !! "id") (acc !! "id")) reg = true).
  { apply existsb_exists. exists e. split; [exact Hein|]. apply strictEq_true. exact He. }
  congruence.
Qed.

Lemma perform_uniqueIds (r : request) (st : local) :
  uniqueIds (registry st) -> admissible r st -> uniqueIds (registry (perform r st)).
Proof.
  unfold uniqueIds. intros Huniq Hadm.
  destruct r as [now record|id partialFields|id|data]; cbn [perform admissible] in *.
  - rewrite registry_addAccount, ids_app. apply NoDup_app.
    split; [exact Huniq|]. split.
    + intros x Hx Hx'. cbn [ids map] in Hx'. rewrite added_record_id in Hx'.
      apply list_elem_of_In in Hx'. destruct Hx' as [<-|[]].
      apply Hadm. apply list_elem_of_In. exact Hx.
    + cbn [ids map]. apply NoDup_singleton.
  - unfold exec, updateAccount, bind, getAccounts. fold (registry st).
    set (p := fun acc : account => strictEq (acc !! "id") (Some (JStr id))).
    destruct (findIndex p (registry st) =? -1) eqn:E; cbn [negb snd]; [exact Huniq|].
    apply Z.eqb_neq in E.
    destruct (findIndex_found p (registry st) E) as (_ & old & Hold & _).
    unfold saveAccounts, registry at 1. cbn [snd totpAccounts default].
    rewrite Hold. cbn [default]. unfold Datatypes.id.
    unfold ids. change (map ?f ?l) with (f <$> l).
    rewrite list_fmap_insert, list_insert_id; [exact Huniq|].
    rewrite list_lookup_fmap, Hold. cbn [fmap option_fmap option_map].
    rewrite lookup_union_r by exact Hadm. reflexivity.
  - rewrite registry_deleteAccount. apply NoDup_ids_filter. exact Huniq.
  - destruct (registry_importData data st) as [->|(l & Ha & ->)]; [exact Huniq|].
    rewrite Ha in Hadm. rewrite ids_app. apply NoDup_app.
    split; [exact Huniq|]. split; [|apply NoDup_ids_filter; exact Hadm].
    intros x Hx Hx'. apply list_elem_of_In in Hx, Hx'.
    apply in_map_iff in Hx' as (acc & <- & Hacc).
    apply filter_In in Hacc as [_ Hnew].
    exact (isNew_id_fresh _ _ Hnew Hx).
Qed.

Lemma run_uniqueIds (rs : list request) :
  forall st, uniqueIds (registry st) -> admissibleRun rs st ->
             uniqueIds (registry (run rs st)).
Proof.
  induction rs as [|r rs IH]; intros st Huniq Hadm; [exact Huniq|].
  destruct Hadm as [Hr Hrs]. cbn [run fold_left].
  apply IH; [apply perform_uniqueIds; assumption | exact Hrs].
Qed.

(** *** Order values after additions only *)

Lemma addAccount_positional (now : Z) (record : account) (st : local) :
  positional (registry st) -> positional (registry (exec (addAccount now record) st)).
Proof.
  intros Hpos i a. rewrite registry_addAccount. intros Hi.
  apply lookup_app_Some in Hi as [Hi|[Hge Hi]]; [apply Hpos; exact Hi|].
  destruct (i - length (registry st))%nat as [|k] eqn:Hk; [|destruct k; discriminate Hi].
  cbn in Hi. inversion Hi; subst a.
  rewrite lookup_insert_eq. do 3 f_equal. lia.
Qed.

Lemma run_adds_positional (adds : list (Z * account)) :
  forall st, positional (registry st) ->
             positional (registry (run (map addOf adds) st)).
Proof.
  induction adds as [|[now record] adds IH]; intros st Hpos; [exact Hpos|].
  cbn [map run fold_left]. unfold addOf at 1. cbn [fst snd perform].
  apply IH. apply addAccount_positional. exact Hpos.
Qed.

Lemma positional_insertionOrdered (accs : list account) :
  positional accs -> insertionOrdered accs.
Proof.
  intros Hpos i j oi oj Hij Hi Hj.
  change (map orderOf accs) with (orderOf <$> accs) in Hi, Hj.
  rewrite list_lookup_fmap in Hi, Hj.
  destruct (accs !! i) as [a|] eqn:Ha; [|discriminate].
  destruct (accs !! j) as [b|] eqn:Hb; [|discriminate].
  cbn in Hi, Hj. inversion Hi; inversion Hj; subst.
  exists (Z.of_nat i), (Z.of_nat j). unfold orderOf.
  rewrite (Hpos i a Ha), (Hpos j b Hb). repeat split; lia.
Qed.

(** C5, as the code has it. Identifiers stay unique along every run of
    requests in which an added record brings a new identifier, an update
    sets no [id] and a payload carries pairwise distinct identifiers; a
    registry built from the empty one by additions alone gives each record
    its position as order value, so that order values follow the insertion
    sequence; a deletion keeps the other records, fields and sequence
    unchanged. *)
Theorem registry_invariant_as_implemented
  (rs : list request) (st : local) (adds : list (Z * account)) (id : string) :
  uniqueIds (registry st) -> admissibleRun rs st ->
  uniqueIds (registry (run rs st)) /\
  positional (registry (run (map addOf adds) emptyLocal)) /\
  insertionOrdered (registry (run (map addOf adds) emptyLocal)) /\
  registry (perform (Delete id) st)
  = List.filter (fun acc : account => negb (strictEq (acc !! "id") (Some (JStr id))))
                (registry st).
Proof.
  intros Huniq Hadm.
  assert (Hpos : positional (registry (run (map addOf adds) emptyLocal))).
  { apply run_adds_positional. intros i a Hi. destruct i; discriminate Hi. }
  split; [apply run_uniqueIds; assumption|].
  split; [exact Hpos|].
  split; [apply positional_insertionOrdered; exact Hpos|].
  apply registry_deleteAccount.
Qed.

Lemma registry_invariant_as_implemented_witness :
  uniqueIds (registry (run addDeleteAdd emptyLocal)) /\
  positional (registry (run (map addOf [(1, sampleAccount "a"); (2, sampleAccount "b")])
                            emptyLocal)).
Proof.
  destruct (registry_invariant_as_implemented addDeleteAdd emptyLocal
              [(1, sampleAccount "a"); (2, sampleAccount "b")] "a")
    as (Hu & Hp & _ & _).
  - constructor.
  - repeat split; vm_compute; intuition discriminate.
  - split; assumption.
Defined.

(** C5 as stated fails. Starting from the empty registry, three additions,
    the deletion of the first two records and a fourth addition (all with
    different identifiers) leave the record "c" with order 2 followed by
    the record "d" with order 1: the order values no longer reflect the
    insertion sequence. Identifiers are not checked either: importing a
    payload that names an identifier twice stores both records, and an
    update may rewrite an identifier into one already stored. *)
Lemma registry_order_broken_after_delete :
  admissibleRun addDeleteAdd emptyLocal /\
  map (fun a : account => (a !! "id", orderOf a)) (registry (run addDeleteAdd emptyLocal))
    = [ (Some (JStr "c"), Some 2); (Some (JStr "d"), Some 1) ] /\
  ~ registryInvariant (registry (run addDeleteAdd emptyLocal)) /\
  ~ uniqueIds (registry (run [Import repeatedIdPayload] emptyLocal)) /\
  ~ uniqueIds (registry (run renameIntoExisting emptyLocal)).
Proof.
  split; [repeat split; vm_compute; intuition discriminate|].
  split; [vm_compute; reflexivity|].
  split; [|split].
  - intros [_ Hord].
    assert (E : map orderOf (registry (run addDeleteAdd emptyLocal)) = [Some 2; Some 1])
      by (vm_compute; reflexivity).
    destruct (Hord 0%nat 1%nat (Some 2) (Some 1)) as (x & y & Hx & Hy & Hlt).
    + lia.
    + rewrite E. reflexivity.
    + rewrite E. reflexivity.
    + inversion Hx; inversion Hy; subst. lia.
  - unfold uniqueIds.
    assert (E : ids (registry (run [Import repeatedIdPayload] emptyLocal))
                = [Some (JStr "x"); Some (JStr "x")]) by (vm_compute; reflexivity).
    rewrite E. intros H. apply NoDup_cons_1_1 in H. apply H. constructor.
  - unfold uniqueIds.
    assert (E : ids (registry (run renameIntoExisting emptyLocal))
                = [Some (JStr "b"); Some (JStr "b")]) by (vm_compute; reflexivity).
    rewrite E. intros H. apply NoDup_cons_1_1 in H. apply H. constructor.
Qed.

(** * Further properties of the code *)

(** ** Base32 decoding, bit by bit *)

Lemma indexOf_base32Digit (c : ascii) :
  isBase32Char c = true ->
  indexOf Totp.BASE32_CHARS c = base32Digit c /\ 0 <= base32Digit c < 32.
Proof.
  each_ascii c; try (intros H; vm_compute in H; discriminate H);
    intros _; vm_compute; intuition discriminate.
Qed.

Lemma toInt32_eq (x : Z) : exists q, toInt32 x = x - 2 ^ 32 * q.
Proof.
  exists ((x + 2 ^ 31) / 2 ^ 32). unfold toInt32.
  rewrite Z.mod_eq by (change (2 ^ 32) with 4294967296; lia). lia.
Qed.

Lemma toInt32_range (x : Z) : - 2 ^ 31 <= toInt32 x < 2 ^ 31.
Proof.
  unfold toInt32.
  pose proof (Z.mod_pos_bound (x + 2 ^ 31) (2 ^ 32) ltac:(reflexivity)) as H.
  change (2 ^ 32) with 4294967296 in *. change (2 ^ 31) with 2147483648 in *. lia.
Qed.

Lemma mod_shift (x m q : Z) : (x - m * q) mod m = x mod m.
Proof.
  replace (x - m * q) with (x + (- q) * m) by lia.
  apply Z_mod_plus_full.
Qed.

Lemma toUint32_toInt32 (x : Z) : toUint32 (toInt32 x) = toUint32 x.
Proof.
  destruct (toInt32_eq x) as [q ->]. unfold toUint32. apply mod_shift.
Qed.

(** [(value << 5) | charIndex] is [32 * value + charIndex] up to the
    32-bit wrap-around. *)
Lemma shift_in_digit (v d : Z) :
  0 <= d < 32 -> toUint32 (bitor (shl v 5) d) = toUint32 (32 * v + d).
Proof.
  intros Hd. unfold bitor, shl.
  change (5 mod 32) with 5. rewrite Z.shiftl_mul_pow2 by lia.
  rewrite (toInt32_small (toInt32 _)) by apply toInt32_range.
  rewrite (toInt32_small d) by (change (2 ^ 31) with 2147483648; lia).
  destruct (toInt32_eq v) as [q1 E1]. rewrite E1.
  destruct (toInt32_eq ((v - 2 ^ 32 * q1) * 2 ^ 5)) as [q2 E2]. rewrite E2.
  replace ((v - 2 ^ 32 * q1) * 2 ^ 5 - 2 ^ 32 * q2)
    with ((v - 2 ^ 32 * q1 - 2 ^ 27 * q2) * 2 ^ 5)
    by (change (2 ^ 32) with (2 ^ 27 * 2 ^ 5); ring).
  rewrite lor_disjoint by (change (2 ^ 5) with 32; lia).
  rewrite toUint32_toInt32. unfold toUint32.
  replace ((v - 2 ^ 32 * q1 - 2 ^ 27 * q2) * 2 ^ 5 + d)
    with (32 * v + d - 2 ^ 32 * (32 * q1 + q2))
    by (change (2 ^ 32) with (2 ^ 27 * 2 ^ 5); change (2 ^ 5) with 32; ring).
  apply mod_shift.
Qed.

Lemma mod_div_mod (x a : Z) :
  0 <= a <= 24 -> ((x mod 2 ^ 32) / 2 ^ a) mod 256 = (x / 2 ^ a) mod 256.
Proof.
  intros Ha.
  assert (Hp : 0 < 2 ^ a) by (apply Z.pow_pos_nonneg; lia).
  assert (Hsplit : 2 ^ 32 = 256 * 2 ^ (24 - a) * 2 ^ a).
  { rewrite <- Z.mul_assoc, <- Z.pow_add_r by lia.
    replace (24 - a + a) with 24 by lia. reflexivity. }
  rewrite (Z.div_mod x (2 ^ 32)) at 2 by (change (2 ^ 32) with 4294967296; lia).
  rewrite Hsplit at 2.
  replace (256 * 2 ^ (24 - a) * 2 ^ a * (x / 2 ^ 32) + x mod 2 ^ 32)
    with (x mod 2 ^ 32 + (256 * 2 ^ (24 - a) * (x / 2 ^ 32)) * 2 ^ a) by ring.
  rewrite Z.div_add by lia.
  replace (256 * 2 ^ (24 - a) * (x / 2 ^ 32)) with ((2 ^ (24 - a) * (x / 2 ^ 32)) * 256) by ring.
  symmetry. apply Z_mod_plus_full.
Qed.

(** [(value >>> a) & 0xff] reads eight bits of the value, whatever the
    wrap-around did above bit 32. *)
Lemma extract_byte (value v a : Z) :
  toUint32 value = toUint32 v -> 0 <= a <= 24 ->
  bitand (ushr value a) 0xff = (v / 2 ^ a) mod 256.
Proof.
  intros Hv Ha. unfold ushr, bitand.
  rewrite Z.mod_small by lia. rewrite Hv. unfold toUint32 at 1.
  rewrite Z.shiftr_div_pow2 by lia.
  set (y := v mod 2 ^ 32 / 2 ^ a).
  rewrite (toInt32_small 0xff) by (change (2 ^ 31) with 2147483648; lia).
  change 0xff with (2 ^ 8 - 1). rewrite land_low_bits by lia.
  change (2 ^ 8) with 256.
  pose proof (Z.mod_pos_bound (toInt32 y) 256 ltac:(lia)) as Hb.
  rewrite toInt32_small by (change (2 ^ 31) with 2147483648; lia).
  destruct (toInt32_eq y) as [q ->].
  change (2 ^ 32) with (256 * 2 ^ 24). rewrite <- Z.mul_assoc, mod_shift.
  unfold y. apply mod_div_mod. exact Ha.
Qed.

(** A byte that is complete after [k] characters is not touched by the
    characters that follow. *)
Lemma specByte_next (v d k : Z) (j : nat) :
  0 <= d < 32 -> 8 * (Z.of_nat j + 1) <= 5 * k ->
  specByte (32 * v + d) (5 * (k + 1)) j = specByte v (5 * k) j.
Proof.
  intros Hd Hj. unfold specByte. f_equal.
  replace (5 * (k + 1) - 8 * (Z.of_nat j + 1))
    with (5 + (5 * k - 8 * (Z.of_nat j + 1))) by lia.
  rewrite Z.pow_add_r by lia.
  rewrite <- Z.div_div by (try apply Z.pow_pos_nonneg; lia).
  f_equal. change (2 ^ 5) with 32.
  rewrite Z.mul_comm, Z.div_add_l by lia.
  rewrite (Z.div_small d 32) by lia. lia.
Qed.

Lemma toUint32_step (a b d : Z) :
  toUint32 a = toUint32 b -> toUint32 (32 * a + d) = toUint32 (32 * b + d).
Proof.
  unfold toUint32. intros H.
  assert (E : a = b + 2 ^ 32 * (a / 2 ^ 32 - b / 2 ^ 32)).
  { pose proof (Z.div_mod a (2 ^ 32) ltac:(discriminate)).
    pose proof (Z.div_mod b (2 ^ 32) ltac:(discriminate)). lia. }
  rewrite E.
  replace (32 * (b + 2 ^ 32 * (a / 2 ^ 32 - b / 2 ^ 32)) + d)
    with (32 * b + d - 2 ^ 32 * (- (32 * (a / 2 ^ 32 - b / 2 ^ 32)))) by ring.
  apply mod_shift.
Qed.

(** The loop invariant: after [k] characters whose base-32 value is [v]
    (up to the wrap-around of the 32-bit accumulator), [bits] holds the
    bits not yet written, and the bytes written are those of the bit
    string. *)
Lemma decodeLoop_bytes (s : string) :
  forall (st : Totp.decoder) (v k : Z) (N : nat),
    firstInvalid s = None ->
    0 <= k ->
    Totp.bits st = 5 * k - 8 * Z.of_nat (Totp.index st) ->
    0 <= Totp.bits st < 8 ->
    toUint32 (Totp.value st) = toUint32 v ->
    length (Totp.output st) = N ->
    (forall j, (j < Totp.index st)%nat ->
               Totp.output st !! j = Some (specByte v (5 * k) j)) ->
    Z.of_nat N = 5 * (k + Z.of_nat (String.length s)) / 8 ->
    exists out,
      Totp.decodeLoop s st = Return out /\ length out = N /\
      forall j, (j < N)%nat ->
                out !! j = Some (specByte (base32Value v s)
                                          (5 * (k + Z.of_nat (String.length s))) j).
Proof.
  induction s as [|c r IH]; intros st v k N Hvalid Hk Hbits Hrange Hval Hlen Hout HN.
  - cbn [Totp.decodeLoop base32Value String.length] in *.
    exists (Totp.output st). split; [reflexivity|]. split; [exact Hlen|].
    assert (HNidx : N = Totp.index st).
    { apply Nat2Z.inj. rewrite HN. symmetry.
      apply (Z.div_unique _ 8 _ (Totp.bits st)); lia. }
    rewrite Z.add_0_r. intros j Hj. apply Hout. lia.
  - cbn [firstInvalid] in Hvalid.
    destruct (isBase32Char c) eqn:Hc; [|discriminate].
    destruct (indexOf_base32Digit c Hc) as [Hidx Hd].
    cbn [Totp.decodeLoop base32Value].
    rewrite indexOf_alphabet, Hc. cbn [negb]. rewrite Hidx.
    assert (HN' : Z.of_nat N = 5 * (k + 1 + Z.of_nat (String.length r)) / 8).
    { rewrite HN. cbn [String.length]. f_equal. lia. }
    assert (Hval' : toUint32 (bitor (shl (Totp.value st) 5) (base32Digit c))
                    = toUint32 (32 * v + base32Digit c)).
    { rewrite shift_in_digit by exact Hd. apply toUint32_step. exact Hval. }
    assert (Htotal : 5 * (k + Z.of_nat (String.length (String c r)))
                     = 5 * (k + 1 + Z.of_nat (String.length r)))
      by (cbn [String.length]; lia).
    rewrite Htotal.
    destruct (8 <=? Totp.bits st + 5) eqn:Hfull.
    + apply Z.leb_le in Hfull.
      assert (Hin : (Totp.index st < N)%nat).
      { apply Nat2Z.inj_lt. rewrite HN'.
        apply Z.lt_le_trans with (Z.of_nat (Totp.index st) + 1); [lia|].
        apply Z.div_le_lower_bound; lia. }
      apply (IH _ (32 * v + base32Digit c) (k + 1) N); cbn [Totp.bits Totp.value Totp.index Totp.output];
        try assumption; try lia.
      * rewrite length_insert. exact Hlen.
      * intros j Hj. destruct (Nat.eq_dec j (Totp.index st)) as [->|Hne].
        -- rewrite list_lookup_insert_eq by lia. f_equal.
           rewrite (extract_byte _ (32 * v + base32Digit c)) by (try exact Hval'; lia).
           unfold specByte. do 3 f_equal. lia.
        -- rewrite list_lookup_insert_ne by congruence.
           rewrite Hout by lia. f_equal. symmetry.
           apply specByte_next; [exact Hd | lia].
    + apply Z.leb_gt in Hfull.
      apply (IH _ (32 * v + base32Digit c) (k + 1) N); cbn [Totp.bits Totp.value Totp.index Totp.output];
        try assumption; try lia.
      intros j Hj. rewrite Hout by exact Hj. f_equal. symmetry.
      apply specByte_next; [exact Hd | lia].
Qed.

Lemma specBytes_lookup (s : string) (j : nat) :
  (j < Z.to_nat (5 * Z.of_nat (String.length s) / 8))%nat ->
  specBytes s !! j
  = Some (specByte (base32Value 0 s) (5 * Z.of_nat (String.length s)) j).
Proof.
  intros Hj. unfold specBytes. cbv zeta.
  change (map ?f ?l) with (f <$> l).
  rewrite list_lookup_fmap, lookup_seq_lt by exact Hj. reflexivity.
Qed.

Lemma base32Decode_valid (encoded : string) :
  firstInvalid (Totp.normalize encoded) = None ->
  Totp.base32Decode encoded = Return (specBytes (Totp.normalize encoded)) /\
  Z.of_nat (length (specBytes (Totp.normalize encoded)))
  = 5 * Z.of_nat (String.length (Totp.normalize encoded)) / 8 /\
  Forall isByte (specBytes (Totp.normalize encoded)).
Proof.
  intros Hvalid. unfold Totp.base32Decode.
  set (s := Totp.normalize encoded) in *.
  set (N := Z.to_nat (Z.of_nat (String.length s) * 5 / 8)).
  assert (Hdiv : 0 <= Z.of_nat (String.length s) * 5 / 8) by (apply Z.div_pos; lia).
  destruct (decodeLoop_bytes s (Totp.Decoder 0 0 0 (replicate N 0)) 0 0 N)
    as (out & Hrun & Hlen & Hbytes);
    cbn [Totp.bits Totp.value Totp.index Totp.output]; try assumption; try lia.
  - apply length_replicate.
  - unfold N. rewrite Z2Nat.id by exact Hdiv. f_equal. lia.
  - assert (HN : N = Z.to_nat (5 * Z.of_nat (String.length s) / 8))
      by (unfold N; f_equal; f_equal; lia).
    assert (Hlen' : length (specBytes s) = N).
    { unfold specBytes. cbv zeta. rewrite length_map, length_seq. symmetry. exact HN. }
    split; [|split].
    + rewrite Hrun. f_equal. apply list_eq. intros j.
      destruct (Nat.lt_ge_cases j N) as [Hj|Hj].
      * rewrite Hbytes by exact Hj. rewrite specBytes_lookup by (rewrite <- HN; exact Hj).
        rewrite Z.add_0_l. reflexivity.
      * rewrite !lookup_ge_None_2 by lia. reflexivity.
    + rewrite Hlen', HN, Z2Nat.id; [reflexivity|]. apply Z.div_pos; lia.
    + unfold specBytes. cbv zeta. apply Forall_forall. intros b Hb.
      apply list_elem_of_In, in_map_iff in Hb as (j & <- & _). unfold specByte, isByte.
      apply Z.mod_pos_bound. lia.
Qed.

(** X1. A text made of alphabet characters only (after normalization)
    decodes to the bytes of its bit string: each character stands for 5
    bits, most significant first, and byte [j] of the output is bits [8j]
    to [8j + 7]; a last group of fewer than 8 bits is dropped.  The
    overflow of the 32-bit accumulator never reaches the bits that are
    read.  The output has [floor(5 n / 8)] bytes, each below 256. *)
Theorem base32Decode_bit_string (encoded : string) :
  firstInvalid (Totp.normalize encoded) = None ->
  Totp.base32Decode encoded = Return (specBytes (Totp.normalize encoded)) /\
  Z.of_nat (length (specBytes (Totp.normalize encoded)))
  = 5 * Z.of_nat (String.length (Totp.normalize encoded)) / 8 /\
  Forall isByte (specBytes (Totp.normalize encoded)).
Proof. apply base32Decode_valid. Qed.

Lemma base32Decode_bit_string_witness :
  Totp.base32Decode "mzxw 6ytb oi======" = Return (specBytes "MZXW6YTBOI").
Proof.
  apply (base32Decode_bit_string "mzxw 6ytb oi======"). vm_compute. reflexivity.
Defined.

(** ** Base32 decoding: what the normalization absorbs *)

Lemma upperChar_facts (c : ascii) :
  upperChar (upperChar c) = upperChar c /\
  upperChar (lowerChar c) = upperChar c /\
  isWhiteSpace (upperChar c) = isWhiteSpace c /\
  isWhiteSpace (lowerChar c) = isWhiteSpace c.
Proof. each_ascii c; vm_compute; auto. Qed.

Lemma removeWhiteSpace_toUpperCase (s : string) :
  removeWhiteSpace (toUpperCase s) = toUpperCase (removeWhiteSpace s).
Proof.
  induction s as [|c r IH]; cbn [toUpperCase removeWhiteSpace]; [reflexivity|].
  destruct (upperChar_facts c) as (_ & _ & -> & _).
  destruct (isWhiteSpace c); cbn [toUpperCase]; congruence.
Qed.

Lemma toUpperCase_idempotent (s : string) : toUpperCase (toUpperCase s) = toUpperCase s.
Proof.
  induction s as [|c r IH]; cbn [toUpperCase]; [reflexivity|].
  destruct (upperChar_facts c) as (-> & _). congruence.
Qed.

Lemma normalize_toLowerCase (s : string) :
  toUpperCase (removeWhiteSpace (toLowerCase s)) = toUpperCase (removeWhiteSpace s).
Proof.
  induction s as [|c r IH]; cbn [toLowerCase toUpperCase removeWhiteSpace]; [reflexivity|].
  destruct (upperChar_facts c) as (_ & Hul & _ & ->).
  destruct (isWhiteSpace c); cbn [toUpperCase]; congruence.
Qed.

Lemma removeWhiteSpace_append (a b : string) :
  removeWhiteSpace (String.append a b)
  = String.append (removeWhiteSpace a) (removeWhiteSpace b).
Proof.
  induction a as [|c r IH]; cbn [String.append removeWhiteSpace]; [reflexivity|].
  destruct (isWhiteSpace c); cbn [String.append]; congruence.
Qed.

Lemma removeWhiteSpace_blank (ws : string) :
  allChars isWhiteSpace ws = true -> removeWhiteSpace ws = EmptyString.
Proof.
  induction ws as [|c r IH]; cbn [allChars removeWhiteSpace]; [reflexivity|].
  destruct (isWhiteSpace c); [exact IH | discriminate].
Qed.

Lemma toUpperCase_append (a b : string) :
  toUpperCase (String.append a b) = String.append (toUpperCase a) (toUpperCase b).
Proof.
  induction a as [|c r IH]; cbn [String.append toUpperCase]; congruence.
Qed.

Lemma padding_fixed (pad : string) :
  allChars (Ascii.eqb "=") pad = true ->
  toUpperCase (removeWhiteSpace pad) = pad /\ removePadding pad = EmptyString.
Proof.
  induction pad as [|c r IH]; cbn [allChars]; [auto|].
  destruct (Ascii.eqb "=" c) eqn:Hc; [|discriminate].
  apply Ascii.eqb_eq in Hc. subst c. intros Hr. destruct (IH Hr) as [H1 H2].
  cbn [removeWhiteSpace toUpperCase removePadding].
  change (isWhiteSpace "=") with false. cbv iota. cbn [toUpperCase].
  change (upperChar "=") with "="%char. rewrite H1, H2. auto.
Qed.

Lemma removePadding_append (s pad : string) :
  removePadding pad = EmptyString ->
  removePadding (String.append s pad) = removePadding s.
Proof.
  intros Hpad. induction s as [|c r IH]; cbn [String.append removePadding];
    [exact Hpad | rewrite IH; reflexivity].
Qed.

(** X2. Decoding does not depend on the case of the letters, on white
    space anywhere in the text, or on ['='] padding at its end. *)
Theorem base32Decode_ignores_case_space_padding (s a b ws pad : string) :
  allChars isWhiteSpace ws = true ->
  allChars (Ascii.eqb "=") pad = true ->
  Totp.base32Decode (toUpperCase s) = Totp.base32Decode s /\
  Totp.base32Decode (toLowerCase s) = Totp.base32Decode s /\
  Totp.base32Decode (String.append a (String.append ws b))
  = Totp.base32Decode (String.append a b) /\
  Totp.base32Decode (String.append s pad) = Totp.base32Decode s.
Proof.
  intros Hws Hpad.
  assert (Hnorm : forall x y, Totp.normalize x = Totp.normalize y ->
                              Totp.base32Decode x = Totp.base32Decode y).
  { intros x y H. unfold Totp.base32Decode. rewrite H. reflexivity. }
  repeat split; apply Hnorm; unfold Totp.normalize.
  - rewrite removeWhiteSpace_toUpperCase, toUpperCase_idempotent. reflexivity.
  - rewrite normalize_toLowerCase. reflexivity.
  - rewrite !removeWhiteSpace_append, (removeWhiteSpace_blank ws Hws). reflexivity.
  - destruct (padding_fixed pad Hpad) as [H1 H2].
    rewrite removeWhiteSpace_append, toUpperCase_append, H1.
    apply removePadding_append. exact H2.
Qed.

Lemma base32Decode_ignores_case_space_padding_witness :
  Totp.base32Decode "jbswy3dpehpk3pxp" = Totp.base32Decode "JBSWY3DPEHPK3PXP" /\
  Totp.base32Decode "JBSW Y3DP EHPK 3PXP" = Totp.base32Decode "JBSWY3DPEHPK3PXP" /\
  Totp.base32Decode "MZXW6YQ=" = Totp.base32Decode "MZXW6YQ".
Proof.
  destruct (base32Decode_ignores_case_space_padding
              "JBSWY3DPEHPK3PXP" "JBSW" "Y3DPEHPK3PXP" " " "=")
    as (_ & Hlow & _ & _); [reflexivity | reflexivity |].
  destruct (base32Decode_ignores_case_space_padding
              "MZXW6YQ" "JBSW" "Y3DP EHPK 3PXP" " " "=")
    as (_ & _ & Hws1 & Hpad); [reflexivity | reflexivity |].
  destruct (base32Decode_ignores_case_space_padding
              "" "JBSWY3DP" "EHPK 3PXP" " " "")
    as (_ & _ & Hws2 & _); [reflexivity | reflexivity |].
  destruct (base32Decode_ignores_case_space_padding
              "" "JBSWY3DPEHPK" "3PXP" " " "")
    as (_ & _ & Hws3 & _); [reflexivity | reflexivity |].
  split; [exact Hlow|]. split; [|exact Hpad].
  etransitivity; [exact Hws1|]. etransitivity; [exact Hws2|]. exact Hws3.
Defined.

(** ** The counter bytes *)

Lemma bitand_low_byte (x : Z) : bitand x 0xff = x mod 256.
Proof.
  unfold bitand.
  rewrite (toInt32_small 0xff) by (change (2 ^ 31) with 2147483648; lia).
  change 0xff with (2 ^ 8 - 1). rewrite land_low_bits by lia.
  change (2 ^ 8) with 256.
  pose proof (Z.mod_pos_bound (toInt32 x) 256 ltac:(lia)) as Hb.
  rewrite toInt32_small by (change (2 ^ 31) with 2147483648; lia).
  destruct (toInt32_eq x) as [q ->].
  change (2 ^ 32) with (256 * 2 ^ 24). rewrite <- Z.mul_assoc. apply mod_shift.
Qed.

Lemma numberToBytes_unfold (z : Z) :
  Totp.numberToBytes (Int z) =
  [ bitand (z / 256 / 256 / 256 / 256 / 256 / 256 / 256) 0xff;
    bitand (z / 256 / 256 / 256 / 256 / 256 / 256) 0xff;
    bitand (z / 256 / 256 / 256 / 256 / 256) 0xff;
    bitand (z / 256 / 256 / 256 / 256) 0xff;
    bitand (z / 256 / 256 / 256) 0xff;
    bitand (z / 256 / 256) 0xff;
    bitand (z / 256) 0xff;
    bitand z 0xff ].
Proof. reflexivity. Qed.

Lemma numberToBytes_value (z : Z) :
  length (Totp.numberToBytes (Int z)) = 8%nat /\
  Forall isByte (Totp.numberToBytes (Int z)) /\
  bigEndian 0 (Totp.numberToBytes (Int z)) = z mod 2 ^ 64.
Proof.
  rewrite numberToBytes_unfold, !bitand_low_byte.
  split; [reflexivity|]. split.
  - repeat constructor; apply Z.mod_pos_bound; lia.
  - cbn [bigEndian]. change (2 ^ 64) with 18446744073709551616.
    Z.div_mod_to_equations. lia.
Qed.

(** X3. The counter is written as 8 bytes, most significant first: read
    back as a big-endian number they give the counter modulo [2^64], hence
    the counter itself when it is non-negative and below [2^64], and its
    two's complement when it is negative.  A counter that is not a number
    (the period was 0) gives eight zero bytes. *)
Theorem numberToBytes_big_endian (z : Z) (positive : bool) :
  length (Totp.numberToBytes (Int z)) = 8%nat /\
  Forall isByte (Totp.numberToBytes (Int z)) /\
  bigEndian 0 (Totp.numberToBytes (Int z)) = z mod 2 ^ 64 /\
  (0 <= z < 2 ^ 64 -> bigEndian 0 (Totp.numberToBytes (Int z)) = z) /\
  (- 2 ^ 63 <= z < 0 -> bigEndian 0 (Totp.numberToBytes (Int z)) = 2 ^ 64 + z) /\
  Totp.numberToBytes NaN = [0; 0; 0; 0; 0; 0; 0; 0] /\
  Totp.numberToBytes (Infinity positive) = [0; 0; 0; 0; 0; 0; 0; 0].
Proof.
  destruct (numberToBytes_value z) as (Hl & Hb & Hv).
  repeat split; try assumption; try reflexivity.
  - intros Hz. rewrite Hv. apply Z.mod_small. exact Hz.
  - intros Hz. rewrite Hv.
    symmetry. apply (Z.mod_unique _ _ (-1)); change (2 ^ 64) with 18446744073709551616 in *;
      change (2 ^ 63) with 9223372036854775808 in *; lia.
Qed.

Lemma numberToBytes_big_endian_witness :
  bigEndian 0 (Totp.numberToBytes (Int 1966)) = 1966 /\
  bigEndian 0 (Totp.numberToBytes (Int (-2))) = 2 ^ 64 + -2.
Proof.
  destruct (numberToBytes_big_endian 1966 true) as (_ & _ & _ & Hpos & _).
  destruct (numberToBytes_big_endian (-2) true) as (_ & _ & _ & _ & Hneg & _).
  split; [apply Hpos | apply Hneg]; split; vm_compute; congruence.
Defined.

(** ** Which calls of [generateTOTP] fail *)

Lemma specBytes_length (s : string) :
  Z.of_nat (length (specBytes s)) = 5 * Z.of_nat (String.length s) / 8.
Proof.
  unfold specBytes. cbv zeta. rewrite length_map, length_seq.
  apply Z2Nat.id. apply Z.div_pos; lia.
Qed.

(** X4. The outcome of a call is decided by the secret and, for a secret
    that yields a key, by [digits] alone, whatever the period and the
    time: a character outside the alphabet (after normalization) gives
    the Base32 error naming the first such character; a text of the
    alphabet with fewer than two characters holds no whole byte, and the
    empty key is refused (DataError); a text of the alphabet with two
    characters or more gives a text, unless [digits] asks for one longer
    than the engine builds, which is a RangeError. *)
Theorem generateTOTP_outcome_by_secret_and_digits
  (now : Z) (secret : string) (opts : Totp.options) :
  (forall c, firstInvalid (Totp.normalize secret) = Some c ->
             Totp.generateTOTP now secret opts = Throw (InvalidBase32Character c)) /\
  (firstInvalid (Totp.normalize secret) = None ->
   (String.length (Totp.normalize secret) < 2)%nat ->
   Totp.generateTOTP now secret opts = Throw DataError) /\
  (firstInvalid (Totp.normalize secret) = None ->
   (2 <= String.length (Totp.normalize secret))%nat ->
   if beyondStringLimit (default (Int 6) (Totp.optDigits opts))
   then Totp.generateTOTP now secret opts = Throw RangeError
   else exists c, Totp.generateTOTP now secret opts = Return c).
Proof.
  split; [|split].
  - intros c Hc.
    assert (H : Totp.base32Decode secret = Throw (InvalidBase32Character c))
      by (unfold Totp.base32Decode; apply decodeLoop_throws; eauto).
    unfold Totp.generateTOTP. rewrite H. reflexivity.
  - intros Hvalid Hshort.
    destruct (base32Decode_valid secret Hvalid) as (Hdec & _ & _).
    rewrite (generateTOTP_decoded now secret opts _ Hdec).
    pose proof (specBytes_length (Totp.normalize secret)) as Hlen.
    rewrite (Z.div_small (5 * _) 8) in Hlen by lia.
    destruct (specBytes (Totp.normalize secret)); [reflexivity | cbn in Hlen; lia].
  - intros Hvalid Hlong.
    destruct (base32Decode_valid secret Hvalid) as (Hdec & _ & _).
    rewrite (generateTOTP_decoded now secret opts _ Hdec).
    pose proof (specBytes_length (Totp.normalize secret)) as Hlen.
    assert (1 <= 5 * Z.of_nat (String.length (Totp.normalize secret)) / 8)
      by (apply Z.div_le_lower_bound; lia).
    destruct (specBytes (Totp.normalize secret)) as [|k0 key]; [cbn in Hlen; lia|].
    destruct (hmac_digest (k0 :: key) (counterBytes now opts)) as [Hl Hbytes].
    destruct (dynamicTruncation_spec _ Hl Hbytes) as (_ & _ & Hrange).
    exact (renderOtp_outcome _ _ Hrange).
Qed.

Lemma generateTOTP_outcome_by_secret_and_digits_witness :
  Totp.generateTOTP 0 "jbsw y3dp?" (Totp.Options None None None)
    = Throw (InvalidBase32Character "?") /\
  Totp.generateTOTP 0 " a ==" (Totp.Options None None None) = Throw DataError /\
  (exists c, Totp.generateTOTP 0 "ab" (Totp.Options None None None) = Return c) /\
  Totp.generateTOTP 0 "ab" (Totp.Options None (Some (Int 536870889)) None)
    = Throw RangeError.
Proof.
  split; [|split; [|split]].
  - apply (generateTOTP_outcome_by_secret_and_digits 0 "jbsw y3dp?"
             (Totp.Options None None None)).
    reflexivity.
  - apply (generateTOTP_outcome_by_secret_and_digits 0 " a =="
             (Totp.Options None None None)).
    + reflexivity.
    + vm_compute. lia.
  - destruct (generateTOTP_outcome_by_secret_and_digits 0 "ab"
                (Totp.Options None None None)) as (_ & _ & H).
    apply H; [reflexivity | vm_compute; lia].
  - destruct (generateTOTP_outcome_by_secret_and_digits 0 "ab"
                (Totp.Options None (Some (Int 536870889)) None)) as (_ & _ & H).
    exact (H eq_refl ltac:(vm_compute; lia)).
Defined.

(** ** Time steps *)

Lemma stepCounter_seconds (ms period : Z) :
  0 < period -> Totp.stepCounter ms (Int period) = Int (ms / 1000 / period).
Proof.
  intros Hp. unfold Totp.stepCounter.
  replace (period =? 0) with false by (symmetry; apply Z.eqb_neq; lia).
  rewrite Z.div_div by lia. reflexivity.
Qed.

(** X5. The countdown and the code agree. With a positive period and a
    clock at or after the epoch, let [r] be the remaining seconds that
    [getRemainingSeconds] reports: during the next [r - 1] whole seconds
    the step counter, and with it the code, stays what it is now, and
    exactly [r] seconds from now the counter is one more. *)
Theorem countdown_matches_step
  (now nowMs period d : Z) (secret : string) (digits : option number) :
  0 <= nowMs -> 0 < period ->
  0 <= d < Totp.getRemainingSeconds nowMs period ->
  Totp.stepCounter (nowMs + 1000 * d) (Int period) = Totp.stepCounter nowMs (Int period) /\
  Totp.generateTOTP now secret
    (Totp.Options (Some (Int period)) digits (Some (nowMs + 1000 * d)))
  = Totp.generateTOTP now secret (Totp.Options (Some (Int period)) digits (Some nowMs)) /\
  Totp.stepCounter (nowMs + 1000 * Totp.getRemainingSeconds nowMs period) (Int period)
  = Int (nowMs / (1000 * period) + 1).
Proof.
  intros Hnow Hp Hd.
  assert (Hs : 0 <= nowMs / 1000) by (apply Z.div_pos; lia).
  unfold Totp.getRemainingSeconds in *.
  rewrite Z.rem_mod_nonneg in * by lia.
  pose proof (Z.mod_pos_bound (nowMs / 1000) period Hp) as Hm.
  pose proof (Z.div_mod (nowMs / 1000) period ltac:(lia)) as Hq.
  assert (Hshift : forall e, (nowMs + 1000 * e) / 1000 = nowMs / 1000 + e).
  { intros e. rewrite (Z.mul_comm 1000 e), Z.div_add by lia. reflexivity. }
  assert (Hsame : Totp.stepCounter (nowMs + 1000 * d) (Int period)
                  = Totp.stepCounter nowMs (Int period)).
  { rewrite !stepCounter_seconds, Hshift by exact Hp. f_equal.
    symmetry. apply (Z.div_unique _ _ _ ((nowMs / 1000) mod period + d)); lia. }
  split; [exact Hsame|]. split.
  - unfold Totp.generateTOTP. cbn [Totp.optPeriod Totp.optTimestamp Totp.optDigits].
    change (default now (Some (nowMs + 1000 * d))) with (nowMs + 1000 * d).
    change (default now (Some nowMs)) with nowMs.
    change (default (Int 30) (Some (Int period))) with (Int period).
    rewrite Hsame. reflexivity.
  - rewrite stepCounter_seconds, Hshift by exact Hp. f_equal.
    rewrite <- Z.div_div by lia.
    symmetry. apply (Z.div_unique _ _ _ 0); lia.
Qed.

Lemma countdown_matches_step_witness :
  Totp.stepCounter (1700000010000 + 1000 * 19) (Int 30)
  = Totp.stepCounter 1700000010000 (Int 30) /\
  Totp.stepCounter (1700000010000 + 1000 * Totp.getRemainingSeconds 1700000010000 30) (Int 30)
  = Int (1700000010000 / (1000 * 30) + 1).
Proof.
  destruct (countdown_matches_step 0 1700000010000 30 19 "JBSWY3DPEHPK3PXP" None)
    as (H1 & _ & H3); [lia | lia | vm_compute; split; congruence |].
  split; assumption.
Defined.

(** ** Display format *)

Lemma sliceTo_slice (n : nat) (s : string) :
  String.append (sliceTo n s) (slice n s) = s.
Proof.
  revert s. induction n as [|n IH]; intros [|c r]; cbn [sliceTo slice String.append];
    try reflexivity.
  rewrite IH. reflexivity.
Qed.

Lemma sliceTo_length (n : nat) (s : string) :
  (n <= String.length s)%nat -> String.length (sliceTo n s) = n.
Proof.
  revert s. induction n as [|n IH]; intros [|c r]; cbn [sliceTo String.length];
    try reflexivity; try lia.
  intros H. rewrite IH by lia. reflexivity.
Qed.

Lemma removeWhiteSpace_solid (s : string) :
  allChars (fun c => negb (isWhiteSpace c)) s = true -> removeWhiteSpace s = s.
Proof.
  induction s as [|c r IH]; cbn [allChars removeWhiteSpace]; [reflexivity|].
  destruct (isWhiteSpace c); cbn [negb andb]; [discriminate|].
  intros H. rewrite IH by exact H. reflexivity.
Qed.

(** X6. [formatOtp] puts one space into the code and changes nothing
    else: the result is one character longer, the group before the space
    has [floor(length / 2)] characters, the two groups put together are
    the code, and removing the white space from the result of a code
    without white space gives the code back. *)
Theorem formatOtp_round_trip (code : string) :
  allChars (fun c => negb (isWhiteSpace c)) code = true ->
  String.length (Totp.formatOtp code) = S (String.length code) /\
  (exists a b, Totp.formatOtp code = String.append a (String " " b) /\
               String.append a b = code /\
               String.length a = Nat.div (String.length code) 2) /\
  removeWhiteSpace (Totp.formatOtp code) = code.
Proof.
  intros Hsolid. unfold Totp.formatOtp.
  set (mid := Nat.div (String.length code) 2).
  assert (Hmid : (mid <= String.length code)%nat)
    by (unfold mid; apply Nat.Div0.div_le_upper_bound; lia).
  pose proof (sliceTo_slice mid code) as Hjoin.
  pose proof (sliceTo_length mid code Hmid) as Hlen.
  split; [|split].
  - rewrite length_append. cbn [String.length].
    rewrite <- Hjoin at 3. rewrite length_append. lia.
  - exists (sliceTo mid code), (slice mid code). auto.
  - rewrite removeWhiteSpace_append. cbn [removeWhiteSpace].
    change (isWhiteSpace " ") with true. cbv iota.
    rewrite <- removeWhiteSpace_append, Hjoin.
    apply removeWhiteSpace_solid. exact Hsolid.
Qed.

Lemma formatOtp_round_trip_witness :
  Totp.formatOtp "1234567" = "123 4567" /\
  removeWhiteSpace (Totp.formatOtp "1234567") = "1234567".
Proof.
  destruct (formatOtp_round_trip "1234567") as (_ & _ & H); [reflexivity|].
  split; [reflexivity | exact H].
Defined.

(** ** Provisioning URIs: failures, defaults and labels *)

Lemma has_get (params : list (string * string)) (name : string) :
  has params name = true <-> exists v, get params name = Some v.
Proof.
  unfold has, get. induction params as [|[k v] r IH]; cbn [existsb List.find fst snd].
  - split; [discriminate | intros [v H]; discriminate].
  - destruct (String.eqb k name); cbn [orb]; [split; eauto | exact IH].
Qed.

Lemma orElse_nonempty (s : option string) (d : string) :
  d <> EmptyString -> orElse s d <> EmptyString.
Proof. intros Hd. destruct s as [[|c r]|]; cbn [orElse]; congruence. Qed.

(** The record that the body of the [try] block returns, field by field. *)
Lemma parseUrl_fields (url : URL) (path : string) :
  protocol url = "otpauth:" ->
  decodeURIComponent (slice 1 (pathname url)) = Return path ->
  Totp.parseUrl url =
  Return (Totp.AccountData
            (hostname url)
            (orElse (Some (if has (searchParams url) "issuer"
                           then default EmptyString (get (searchParams url) "issuer")
                           else fst (Totp.labelParts path))) "Unknown")
            (orElse (Some (snd (Totp.labelParts path))) "Unknown")
            (orElse (get (searchParams url) "secret") "")
            (orElse (get (searchParams url) "algorithm") "SHA1")
            (parseInt10 (orElse (get (searchParams url) "digits") "6"))
            (parseInt10 (orElse (get (searchParams url) "period") "30"))).
Proof.
  intros Hproto Hpath. unfold Totp.parseUrl.
  rewrite Hproto, Hpath. cbn [bindC].
  change (negb ("otpauth:" =? "otpauth:")%string) with false. cbv iota.
  destruct (Totp.labelParts path) as [i a]. reflexivity.
Qed.

(** X7. The parser reports every failure as 'Invalid OTP Auth URI' and
    nothing else, and it fails in exactly three cases: the text is not a
    URL, the scheme is not [otpauth], or the path holds a malformed
    percent escape. *)
Theorem parseOtpAuthUri_failures (uri : string) :
  (forall e, Totp.parseOtpAuthUri uri = Throw e -> e = InvalidOtpAuthUri) /\
  (forall e, URL_new uri = Throw e -> Totp.parseOtpAuthUri uri = Throw InvalidOtpAuthUri) /\
  (forall url, URL_new uri = Return url -> protocol url <> "otpauth:" ->
               Totp.parseOtpAuthUri uri = Throw InvalidOtpAuthUri) /\
  (forall url e, URL_new uri = Return url ->
                 decodeURIComponent (slice 1 (pathname url)) = Throw e ->
                 Totp.parseOtpAuthUri uri = Throw InvalidOtpAuthUri) /\
  (forall url path, URL_new uri = Return url -> protocol url = "otpauth:" ->
                    decodeURIComponent (slice 1 (pathname url)) = Return path ->
                    exists r, Totp.parseOtpAuthUri uri = Return r).
Proof.
  unfold Totp.parseOtpAuthUri.
  split; [|split; [|split; [|split]]].
  - intros e. destruct (bindC (URL_new uri) Totp.parseUrl); cbn [tryCatch]; congruence.
  - intros e ->. reflexivity.
  - intros url -> Hproto. cbn [bindC]. unfold Totp.parseUrl.
    apply String.eqb_neq in Hproto. rewrite Hproto. reflexivity.
  - intros url e -> Hpath. cbn [bindC]. unfold Totp.parseUrl. rewrite Hpath.
    destruct (negb (protocol url =? "otpauth:")%string); reflexivity.
  - intros url path -> Hproto Hpath. cbn [bindC].
    rewrite (parseUrl_fields url path Hproto Hpath). cbn [tryCatch]. eauto.
Qed.

Lemma parseOtpAuthUri_failures_witness :
  Totp.parseOtpAuthUri "not a uri" = Throw InvalidOtpAuthUri /\
  Totp.parseOtpAuthUri "https://totp/Example:alice?secret=ABC123" = Throw InvalidOtpAuthUri /\
  Totp.parseOtpAuthUri "otpauth://totp/Example%3?secret=ABC123" = Throw InvalidOtpAuthUri.
Proof.
  split; [|split].
  - apply (parseOtpAuthUri_failures "not a uri") with (e := TypeError).
    vm_compute. reflexivity.
  - apply (parseOtpAuthUri_failures "https://totp/Example:alice?secret=ABC123")
      with (url := Url "https:" "totp" "/Example:alice" [("secret", "ABC123")]).
    + vm_compute. reflexivity.
    + discriminate.
  - apply (parseOtpAuthUri_failures "otpauth://totp/Example%3?secret=ABC123")
      with (url := Url "otpauth:" "totp" "/Example%3" [("secret", "ABC123")]) (e := URIError).
    + vm_compute. reflexivity.
    + vm_compute. reflexivity.
Defined.

(** X8. A parsed record has no empty issuer, account or algorithm: an
    empty one is replaced by "Unknown" (by "SHA1" for the algorithm).  The
    type is the host of the URI, unchecked.  A non-empty [issuer]
    parameter wins over the issuer of the path; absent parameters give the
    secret "", the algorithm "SHA1", 6 digits and a period of 30. *)
Theorem parseOtpAuthUri_defaults (uri : string) (url : URL) (r : Totp.accountData) :
  URL_new uri = Return url ->
  Totp.parseOtpAuthUri uri = Return r ->
  Totp.type r = hostname url /\
  Totp.issuer r <> EmptyString /\
  Totp.account r <> EmptyString /\
  Totp.algorithm r <> EmptyString /\
  (forall c v, get (searchParams url) "issuer" = Some (String c v) ->
               Totp.issuer r = String c v) /\
  (get (searchParams url) "issuer" = Some EmptyString -> Totp.issuer r = "Unknown") /\
  (get (searchParams url) "secret" = None -> Totp.secret r = EmptyString) /\
  (get (searchParams url) "algorithm" = None -> Totp.algorithm r = "SHA1") /\
  (get (searchParams url) "digits" = None -> Totp.digits r = Int 6) /\
  (get (searchParams url) "period" = None -> Totp.period r = Int 30).
Proof.
  intros Hurl Hparse. unfold Totp.parseOtpAuthUri in Hparse.
  rewrite Hurl in Hparse. cbn [bindC] in Hparse.
  assert (Hproto : protocol url = "otpauth:").
  { unfold Totp.parseUrl in Hparse.
    destruct (protocol url =? "otpauth:")%string eqn:E; [apply String.eqb_eq; exact E|].
    discriminate Hparse. }
  destruct (decodeURIComponent (slice 1 (pathname url))) as [path|e] eqn:Hpath.
  2:{ unfold Totp.parseUrl in Hparse. rewrite Hpath in Hparse.
      destruct (negb (protocol url =? "otpauth:")%string); discriminate Hparse. }
  rewrite (parseUrl_fields url path Hproto Hpath) in Hparse.
  cbn [tryCatch] in Hparse. injection Hparse as <-.
  cbn [Totp.type Totp.issuer Totp.account Totp.algorithm Totp.secret Totp.digits Totp.period].
  split; [reflexivity|].
  split; [refine (orElse_nonempty (Some _) "Unknown" _); discriminate|].
  split; [refine (orElse_nonempty (Some _) "Unknown" _); discriminate|].
  split; [refine (orElse_nonempty (get (searchParams url) "algorithm") "SHA1" _); discriminate|].
  split; [|split].
  - intros c v Hget.
    replace (has (searchParams url) "issuer") with true
      by (symmetry; apply has_get; eauto).
    rewrite Hget. reflexivity.
  - intros Hget.
    replace (has (searchParams url) "issuer") with true
      by (symmetry; apply has_get; eauto).
    rewrite Hget. reflexivity.
  - repeat split; intros ->; reflexivity.
Qed.

Lemma parseOtpAuthUri_defaults_witness :
  exists r, Totp.parseOtpAuthUri "otpauth://hotp/Path:bob?issuer=Param" = Return r /\
            Totp.type r = "hotp" /\ Totp.issuer r = "Param" /\
            Totp.digits r = Int 6 /\ Totp.period r = Int 30.
Proof.
  destruct (parseOtpAuthUri_defaults "otpauth://hotp/Path:bob?issuer=Param"
              (Url "otpauth:" "hotp" "/Path:bob" [("issuer", "Param")])
              (Totp.AccountData "hotp" "Param" "bob" "" "SHA1" (Int 6) (Int 30)))
    as (Ht & _ & _ & _ & Hi & _ & _ & _ & Hd & Hp).
  - vm_compute. reflexivity.
  - vm_compute. reflexivity.
  - eexists. split; [vm_compute; reflexivity|].
    split; [exact Ht|]. split; [exact (Hi "P"%char "aram" eq_refl)|].
    split; [apply Hd | apply Hp]; reflexivity.
Defined.

Lemma breakAt_absent (c : ascii) (s : string) :
  includes s c = false -> fst (breakAt (Ascii.eqb c) s) = s.
Proof.
  unfold includes. induction s as [|d r IH]; cbn [indexOf breakAt]; [reflexivity|].
  rewrite (Ascii.eqb_sym c d).
  destruct (Ascii.eqb d c); [intros H; discriminate H|].
  pose proof (indexOf_lower_bound r c) as Hlb.
  destruct (indexOf r c =? -1) eqn:E.
  - intros _. destruct (breakAt (Ascii.eqb c) r) as [a b] eqn:Hb.
    cbn [fst] in *. rewrite IH by reflexivity. reflexivity.
  - intros H. apply negb_false_iff, Z.eqb_eq in H. apply Z.eqb_neq in E. lia.
Qed.

(** X9. The label of the path. Without an [issuer] parameter, a decoded
    path "a:b" with a single colon gives the issuer [a] and the account
    [b], and a path without a colon gives the whole path as account and no
    issuer; an empty part reads "Unknown". *)
Theorem parseUrl_label (url : URL) (a b : string) :
  protocol url = "otpauth:" ->
  get (searchParams url) "issuer" = None ->
  includes a ":" = false -> includes b ":" = false ->
  (decodeURIComponent (slice 1 (pathname url)) = Return (String.append a (String ":" b)) ->
   exists r, Totp.parseUrl url = Return r /\
             Totp.issuer r = orElse (Some a) "Unknown" /\
             Totp.account r = orElse (Some b) "Unknown") /\
  (decodeURIComponent (slice 1 (pathname url)) = Return a ->
   exists r, Totp.parseUrl url = Return r /\
             Totp.issuer r = "Unknown" /\
             Totp.account r = orElse (Some a) "Unknown").
Proof.
  intros Hproto Hissuer Ha Hb.
  assert (Hhas : has (searchParams url) "issuer" = false).
  { destruct (has (searchParams url) "issuer") eqn:E; [|reflexivity].
    apply has_get in E as [v Hv]. congruence. }
  destruct (labelParts_spec a b Ha) as [Hnone Hone].
  rewrite (breakAt_absent ":" b Hb) in Hone.
  split; intros Hpath; rewrite (parseUrl_fields url _ Hproto Hpath), Hhas;
    eexists; (split; [reflexivity|]);
    cbn [Totp.issuer Totp.account]; [rewrite Hone | rewrite Hnone]; auto.
Qed.

Lemma parseUrl_label_witness :
  exists r, Totp.parseUrl (Url "otpauth:" "totp" "/ACME%20Co:john%40example.com"
                               [("secret", "ABC123")]) = Return r /\
            Totp.issuer r = "ACME Co" /\ Totp.account r = "john@example.com".
Proof.
  destruct (parseUrl_label
              (Url "otpauth:" "totp" "/ACME%20Co:john%40example.com" [("secret", "ABC123")])
              "ACME Co" "john@example.com")
    as [Hone _]; try reflexivity.
  apply Hone. vm_compute. reflexivity.
Defined.

(** ** The registry: what each operation does to the collection *)

(** X10. [addAccount] appends exactly one record and leaves the stored
    ones in place: the new record has the fields of the given one, except
    [createdAt], set to the current time, and [order], set to the number
    of records stored before, whatever the caller put in those two
    fields. *)
Theorem addAccount_appends (now : Z) (record : account) (st : local) :
  exists r : account,
    addAccount now record st = (Return tt, Local (Some (registry st ++ [r])%list) (appSettings st)) /\
    registry (exec (addAccount now record) st) = (registry st ++ [r])%list /\
    r !! "createdAt" = Some (JNum now) /\
    r !! "order" = Some (JNum (Z.of_nat (length (registry st)))) /\
    (forall k : string, k <> "createdAt" -> k <> "order" -> r !! k = record !! k).
Proof.
  eexists. split; [reflexivity|]. split; [reflexivity|]. split; [|split].
  - rewrite lookup_insert_ne by discriminate. apply lookup_insert_eq.
  - apply lookup_insert_eq.
  - intros k H1 H2. rewrite !lookup_insert_ne by congruence. reflexivity.
Qed.

Lemma findIndex_first {A} (p : A -> bool) (l : list A) (i : nat) (x : A) :
  l !! i = Some x -> p x = true ->
  (forall j y, (j < i)%nat -> l !! j = Some y -> p y = false) ->
  findIndex p l = Z.of_nat i.
Proof.
  revert i. induction l as [|a r IH]; intros i Hi Hp Hbefore; [discriminate Hi|].
  cbn [findIndex]. destruct i as [|i].
  - cbn in Hi. inversion Hi; subst. rewrite Hp. reflexivity.
  - rewrite (Hbefore 0%nat a) by (try lia; reflexivity).
    rewrite (IH i) ; [|exact Hi|exact Hp|].
    + replace (Z.of_nat i =? -1) with false by (symmetry; apply Z.eqb_neq; lia). lia.
    + intros j y Hj Hy. apply (Hbefore (S j) y); [lia | exact Hy].
Qed.

(** X11. [updateAccount] on an identifier that is stored rewrites the
    first record that carries it, and only that one: each field named in
    the update takes the new value, every other field of the record stays,
    and the number and sequence of the records do not change. *)
Theorem updateAccount_merges_first_match
  (id : string) (updates old : account) (st : local) (i : nat) :
  registry st !! i = Some old ->
  old !! "id" = Some (JStr id) ->
  (forall j (acc : account), (j < i)%nat -> registry st !! j = Some acc ->
                             acc !! "id" <> Some (JStr id)) ->
  registry (exec (updateAccount id updates) st) = <[i := updates ∪ old]> (registry st) /\
  length (registry (exec (updateAccount id updates) st)) = length (registry st) /\
  (forall j, j <> i ->
             registry (exec (updateAccount id updates) st) !! j = registry st !! j) /\
  (forall (k : string) v, updates !! k = Some v -> (updates ∪ old) !! k = Some v) /\
  (forall k : string, updates !! k = None -> (updates ∪ old) !! k = old !! k).
Proof.
  intros Hold Hid Hbefore.
  assert (Hreg : registry (exec (updateAccount id updates) st)
                 = <[i := updates ∪ old]> (registry st)).
  { unfold exec, updateAccount, bind, getAccounts. fold (registry st).
    rewrite (findIndex_first _ (registry st) i old Hold).
    - replace (Z.of_nat i =? -1) with false by (symmetry; apply Z.eqb_neq; lia).
      cbn [negb]. rewrite Nat2Z.id, Hold. reflexivity.
    - apply strictEq_true. exact Hid.
    - intros j y Hj Hy. apply strictEq_false. exact (Hbefore j y Hj Hy). }
  rewrite Hreg. split; [reflexivity|]. split; [apply length_insert|]. split; [|split].
  - intros j Hj. apply list_lookup_insert_ne. congruence.
  - intros k v Hk. apply lookup_union_Some_l. exact Hk.
  - intros k Hk. apply lookup_union_r. exact Hk.
Qed.

Lemma updateAccount_merges_first_match_witness :
  registry (exec (updateAccount "a" {[ "issuer" := JStr "New" ]})
                 (Local (Some [sampleAccount "b"; sampleAccount "a"; sampleAccount "a"]) None))
  = [ sampleAccount "b";
      {[ "issuer" := JStr "New" ]} ∪ sampleAccount "a";
      sampleAccount "a" ].
Proof.
  apply (updateAccount_merges_first_match "a" {[ "issuer" := JStr "New" ]} (sampleAccount "a")
           (Local (Some [sampleAccount "b"; sampleAccount "a"; sampleAccount "a"]) None) 1).
  - reflexivity.
  - vm_compute. reflexivity.
  - intros [|j] acc Hj Hacc; [|lia]. inversion Hacc; subst. vm_compute. discriminate.
Defined.

Lemma filter_all {A} (f : A -> bool) (l : list A) :
  (forall x, In x l -> f x = true) -> List.filter f l = l.
Proof.
  induction l as [|x r IH]; intros H; cbn [List.filter]; [reflexivity|].
  rewrite (H x) by (left; reflexivity).
  rewrite IH by (intros y Hy; apply H; right; exact Hy). reflexivity.
Qed.

Lemma filter_twice {A} (f : A -> bool) (l : list A) :
  List.filter f (List.filter f l) = List.filter f l.
Proof.
  apply filter_all. intros x Hx. apply filter_In in Hx. tauto.
Qed.

(** X12. [deleteAccount] removes every record that carries the
    identifier and keeps the others as they are, in sequence; an
    identifier that is not stored leaves the collection unchanged, and
    deleting twice is deleting once. *)
Theorem deleteAccount_removes_matching (id : string) (st : local) :
  (forall acc : account,
     In acc (registry (exec (deleteAccount id) st)) <->
     In acc (registry st) /\ acc !! "id" <> Some (JStr id)) /\
  ((forall acc : account, In acc (registry st) -> acc !! "id" <> Some (JStr id)) ->
   registry (exec (deleteAccount id) st) = registry st) /\
  registry (exec (deleteAccount id) (exec (deleteAccount id) st))
  = registry (exec (deleteAccount id) st) /\
  sublist (registry (exec (deleteAccount id) st)) (registry st).
Proof.
  rewrite !registry_deleteAccount. split; [|split; [|split]].
  - intros acc. rewrite filter_In, negb_true_iff, strictEq_false. reflexivity.
  - intros Habsent. apply filter_all. intros acc Hacc.
    apply negb_true_iff, strictEq_false, Habsent, Hacc.
  - apply filter_twice.
  - induction (registry st) as [|a r IH]; cbn [List.filter]; [constructor|].
    destruct (negb _); [apply sublist_skip | apply sublist_cons]; exact IH.
Qed.

Lemma deleteAccount_removes_matching_witness :
  registry (exec (deleteAccount "zzz")
                 (Local (Some [sampleAccount "a"; sampleAccount "b"]) None))
  = [sampleAccount "a"; sampleAccount "b"].
Proof.
  destruct (deleteAccount_removes_matching "zzz"
              (Local (Some [sampleAccount "a"; sampleAccount "b"]) None))
    as (_ & Habsent & _).
  apply Habsent. intros acc [<-|[<-|[]]]; vm_compute; discriminate.
Defined.

(** X13. Adding a record with a new identifier and deleting that
    identifier gives back the collection as it was. *)
Theorem add_then_delete (now : Z) (id : string) (record : account) (st : local) :
  record !! "id" = Some (JStr id) ->
  (forall acc : account, In acc (registry st) -> acc !! "id" <> Some (JStr id)) ->
  registry (exec (deleteAccount id) (exec (addAccount now record) st)) = registry st.
Proof.
  intros Hid Hfresh.
  rewrite registry_deleteAccount, registry_addAccount, List.filter_app.
  cbn [List.filter]. rewrite added_record_id, Hid.
  replace (strictEq (Some (JStr id)) (Some (JStr id))) with true
    by (symmetry; apply strictEq_true; reflexivity).
  cbn [negb]. rewrite app_nil_r.
  apply filter_all. intros acc Hacc.
  apply negb_true_iff, strictEq_false, Hfresh, Hacc.
Qed.

Lemma add_then_delete_witness :
  registry (exec (deleteAccount "c")
                 (exec (addAccount 7 (sampleAccount "c"))
                       (Local (Some [sampleAccount "a"; sampleAccount "b"]) None)))
  = [sampleAccount "a"; sampleAccount "b"].
Proof.
  apply (add_then_delete 7 "c" (sampleAccount "c")
           (Local (Some [sampleAccount "a"; sampleAccount "b"]) None)).
  - vm_compute. reflexivity.
  - intros acc [<-|[<-|[]]]; vm_compute; discriminate.
Defined.

(** ** Export and import *)

Lemma exportData_payload (isoNow : string) (st : local) :
  exportData isoNow st =
  (Return (Payload (Some (JStr "1.0")) (Some (JStr isoNow))
                   (Some (Array (registry st))) (Some (default ∅ (appSettings st)))),
   st).
Proof. reflexivity. Qed.

Lemma isNew_empty (l : list account) : List.filter (isNew []) l = l.
Proof. apply filter_all. intros acc _. reflexivity. Qed.

Lemma isNew_self (l : list account) : List.filter (isNew l) l = [].
Proof.
  apply filter_none. intros acc Hacc. unfold isNew.
  apply negb_false_iff, existsb_exists. exists acc.
  split; [exact Hacc | apply strictEq_true; reflexivity].
Qed.

(** X14. Export and import fit together. Exporting reads the storage
    without changing it. Importing the exported payload into an empty
    storage stores the same collection, records and sequence, and reports
    every account as imported; importing it into the storage it came from
    skips every account and writes nothing. *)
Theorem export_import_round_trip (isoNow : string) (st : local) (data : payload) :
  fst (exportData isoNow st) = Return data ->
  exec (exportData isoNow) st = st /\
  (exists st', importData data emptyLocal
               = (Return (Success (Z.of_nat (length (registry st))) 0), st') /\
               registry st' = registry st) /\
  importData data st = (Return (Success 0 (Z.of_nat (length (registry st)))), st).
Proof.
  rewrite exportData_payload. cbn [fst]. intros Hdata.
  injection Hdata as <-.
  set (data := Payload (Some (JStr "1.0")) (Some (JStr isoNow))
                       (Some (Array (registry st))) (Some (default ∅ (appSettings st)))).
  split; [reflexivity|]. split.
  - rewrite (importData_array data (registry st) emptyLocal eq_refl eq_refl).
    change (registry emptyLocal) with (@nil account).
    fold (isNew []). rewrite isNew_empty, Z.sub_diag.
    eexists. split; [reflexivity|].
    destruct (0 <? Z.of_nat (length (registry st))) eqn:E; [reflexivity|].
    apply Z.ltb_ge in E. destruct (registry st); [reflexivity | cbn in E; lia].
  - rewrite (importData_array data (registry st) st eq_refl eq_refl).
    fold (isNew (registry st)). rewrite isNew_self. cbn [length].
    change (0 <? Z.of_nat 0) with false. cbv iota. rewrite Z.sub_0_r. reflexivity.
Qed.

Lemma export_import_round_trip_witness :
  exists st', importData (samplePayload (Some (JStr "1.0")) [sampleAccount "a"; sampleAccount "b"])
                         emptyLocal
              = (Return (Success 2 0), st') /\
              registry st' = [sampleAccount "a"; sampleAccount "b"].
Proof.
  destruct (export_import_round_trip "2024-01-01T00:00:00.000Z"
              (Local (Some [sampleAccount "a"; sampleAccount "b"]) None)
              (samplePayload (Some (JStr "1.0")) [sampleAccount "a"; sampleAccount "b"]))
    as (_ & (st' & H1 & H2) & _).
  - reflexivity.
  - exists st'. split; assumption.
Defined.

(** X15. [importData] never throws: it returns a result object. A
    failure leaves the storage as it was. A success means that the payload
    held an array; the accounts imported and skipped add up to its length,
    the stored records stay in place, and the records appended after them
    are exactly the accounts of the payload whose identifier was not
    stored, in the sequence of the payload. *)
Theorem importData_accounting (data : payload) (st : local) :
  (exists result, fst (importData data st) = Return result) /\
  (forall message, fst (importData data st) = Return (Failure message) ->
                   exec (importData data) st = st) /\
  (forall imported skipped,
     fst (importData data st) = Return (Success imported skipped) ->
     exists l,
       accounts data = Some (Array l) /\
       imported = Z.of_nat (length (List.filter (isNew (registry st)) l)) /\
       imported + skipped = Z.of_nat (length l) /\
       0 <= skipped /\
       registry (exec (importData data) st)
       = (registry st ++ List.filter (isNew (registry st)) l)%list).
Proof.
  destruct (accounts data) as [[l|v]|] eqn:Ha.
  2,3: destruct (importData_not_array data st) as [e He];
       [intros l; rewrite Ha; discriminate|];
       unfold exec; rewrite He; cbn [fst snd];
       (split; [eauto|]); (split; [reflexivity|]); intros i k H; discriminate H.
  destruct (truthy (version data)) eqn:Hv.
  - unfold exec. rewrite (importData_array data l st Hv Ha). cbn [fst snd].
    fold (isNew (registry st)).
    remember (List.filter (isNew (registry st)) l) as new eqn:Hnew.
    split; [eauto|]. split; [intros m H; discriminate H|].
    intros i k H. injection H as <- <-. exists l.
    assert (Hle : (length new <= length l)%nat)
      by (rewrite Hnew; apply List.filter_length_le).
    rewrite <- Hnew.
    split; [reflexivity|]. split; [reflexivity|]. split; [lia|]. split; [lia|].
    destruct (0 <? Z.of_nat (length new)) eqn:E; [reflexivity|].
    apply Z.ltb_ge in E. destruct new; [|cbn in E; lia].
    rewrite app_nil_r. reflexivity.
  - unfold exec. rewrite importData_invalid by (rewrite Hv; reflexivity).
    cbn [fst snd]. split; [eauto|]. split; [reflexivity|].
    intros i k H. discriminate H.
Qed.

Lemma importData_accounting_witness :
  exists l, accounts (samplePayload (Some (JStr "1.0")) [sampleAccount "a"; sampleAccount "z"])
            = Some (Array l) /\
            1 + 1 = Z.of_nat (length l).
Proof.
  destruct (importData_accounting
              (samplePayload (Some (JStr "1.0")) [sampleAccount "a"; sampleAccount "z"])
              (Local (Some [sampleAccount "a"]) None))
    as (_ & _ & Hok).
  destruct (Hok 1 1) as (l & Hl & _ & Hsum & _).
  - vm_compute. reflexivity.
  - exists l. split; assumption.
Defined.

(** ** Password strength *)

Lemma evaluateStrength_cases (password : string) (o : Password.options) :
  let n := Z.of_nat (String.length password) in
  let t := Password.typeCount o in
  let s := Password.evaluateStrength password o in
  (Password.strengthLevel s = Password.strong <-> 12 <= n /\ 3 <= t) /\
  (Password.strengthLevel s = Password.medium <->
   8 <= n /\ 2 <= t /\ ~ (12 <= n /\ 3 <= t)) /\
  (Password.strengthLevel s = Password.weak <-> n < 8 \/ t < 2) /\
  10 <= Password.score s <= 100 /\
  Password.label s = Password.getStrengthLabel (Password.strengthLevel s).
Proof.
  cbv zeta. unfold Password.evaluateStrength.
  cbn [Password.strengthLevel Password.score Password.label].
  set (n := Z.of_nat (String.length password)).
  assert (Ht : 0 <= Password.typeCount o <= 4)
    by (unfold Password.typeCount; destruct o as [? [] [] [] []]; cbn; lia).
  set (t := Password.typeCount o) in *.
  destruct (16 <=? n) eqn:H16; destruct (12 <=? n) eqn:H12; destruct (8 <=? n) eqn:H8;
    rewrite ?Z.leb_le, ?Z.leb_gt in H16, H12, H8; try lia;
    destruct (3 <=? t) eqn:T3; destruct (2 <=? t) eqn:T2;
    rewrite ?Z.leb_le, ?Z.leb_gt in T3, T2; try lia;
    repeat match goal with
           | |- context [?a <=? ?b] =>
               let E := fresh "E" in
               destruct (a <=? b) eqn:E; rewrite ?Z.leb_le, ?Z.leb_gt in E; try lia
           end;
    cbn [andb]; repeat split; try lia; try discriminate; try reflexivity;
    intros; try lia; try discriminate; try (intuition lia).
Qed.

(** X16. The strength level depends on the length of the password and on
    the number of selected character types only: strong from 12
    characters and 3 types on, medium from 8 characters and 2 types on,
    weak otherwise; the comparisons of the score in the source never
    decide.  The score lies between 10 and 100. *)
Theorem evaluateStrength_levels (password : string) (o : Password.options) :
  let n := Z.of_nat (String.length password) in
  let t := Password.typeCount o in
  let s := Password.evaluateStrength password o in
  (Password.strengthLevel s = Password.strong <-> 12 <= n /\ 3 <= t) /\
  (Password.strengthLevel s = Password.medium <->
   8 <= n /\ 2 <= t /\ ~ (12 <= n /\ 3 <= t)) /\
  (Password.strengthLevel s = Password.weak <-> n < 8 \/ t < 2) /\
  10 <= Password.score s <= 100 /\
  Password.label s = Password.getStrengthLabel (Password.strengthLevel s).
Proof. apply evaluateStrength_cases. Qed.

(** X17. A longer password never gets a lower score or a lower level,
    the options being the same. *)
Theorem evaluateStrength_monotone (p1 p2 : string) (o : Password.options) :
  (String.length p1 <= String.length p2)%nat ->
  Password.score (Password.evaluateStrength p1 o)
  <= Password.score (Password.evaluateStrength p2 o) /\
  levelRank (Password.strengthLevel (Password.evaluateStrength p1 o))
  <= levelRank (Password.strengthLevel (Password.evaluateStrength p2 o)).
Proof.
  intros Hlen.
  destruct (evaluateStrength_cases p1 o) as (S1 & M1 & W1 & _).
  destruct (evaluateStrength_cases p2 o) as (S2 & M2 & W2 & _).
  split.
  - unfold Password.evaluateStrength. cbn [Password.score].
    repeat match goal with
           | |- context [?a <=? ?b] =>
               let E := fresh "E" in
               destruct (a <=? b) eqn:E; rewrite ?Z.leb_le, ?Z.leb_gt in E; try lia
           end.
  - destruct (Password.strengthLevel (Password.evaluateStrength p1 o));
      destruct (Password.strengthLevel (Password.evaluateStrength p2 o));
      cbn [levelRank]; try lia; exfalso.
    + destruct (proj1 M1 eq_refl) as (? & ? & _). destruct (proj1 W2 eq_refl); lia.
    + destruct (proj1 S1 eq_refl). destruct (proj1 W2 eq_refl); lia.
    + destruct (proj1 S1 eq_refl). destruct (proj1 M2 eq_refl) as (? & ? & Hn).
      apply Hn. lia.
Qed.

Lemma evaluateStrength_monotone_witness :
  Password.score (Password.evaluateStrength "abcdefgh" Password.DEFAULT_OPTIONS)
  <= Password.score (Password.evaluateStrength "abcdefghijkl" Password.DEFAULT_OPTIONS).
Proof.
  apply (evaluateStrength_monotone "abcdefgh" "abcdefghijkl" Password.DEFAULT_OPTIONS).
  vm_compute. lia.
Defined.

(** ** Password generation *)

Lemma string_length_chars (s : string) :
  String.length s = length (list_ascii_of_string s).
Proof. induction s as [|c r IH]; cbn; congruence. Qed.

Lemma charIn_append (a b : string) (c : ascii) :
  charIn (String.append a b) c <-> charIn a c \/ charIn b c.
Proof.
  unfold charIn. induction a as [|d r IH]; cbn [String.append list_ascii_of_string In].
  - tauto.
  - rewrite IH. tauto.
Qed.

Lemma charAt_lt (s : string) (i : nat) :
  (i < String.length s)%nat -> exists c, charAt s i = Some c /\ charIn s c.
Proof.
  unfold charIn. revert i. induction s as [|d r IH]; intros i Hi; cbn in Hi; [lia|].
  destruct i as [|i]; cbn [charAt list_ascii_of_string In]; [eauto|].
  destruct (IH i ltac:(lia)) as (c & Hc & Hin). eauto.
Qed.

(** A non-negative random value picks a character of a non-empty set. *)
Lemma pick_in_charset (charset : string) (r : Z) :
  (0 < String.length charset)%nat -> 0 <= r ->
  exists c, charAt charset (Z.to_nat (Z.rem r (Z.of_nat (String.length charset)))) = Some c /\
            charIn charset c.
Proof.
  intros Hlen Hr. apply charAt_lt.
  rewrite Z.rem_mod_nonneg by lia.
  pose proof (Z.mod_pos_bound r (Z.of_nat (String.length charset)) ltac:(lia)). lia.
Qed.

Lemma toUint32_nonneg (x : Z) : 0 <= toUint32 x.
Proof. unfold toUint32. apply Z.mod_pos_bound. reflexivity. Qed.

Lemma getRandomValues_spec (n : nat) (rand : nat -> Z) (cursor : nat) :
  length (fst (Password.getRandomValues n rand cursor)) = n /\
  Forall (fun r => 0 <= r) (fst (Password.getRandomValues n rand cursor)) /\
  snd (Password.getRandomValues n rand cursor) = (cursor + n)%nat.
Proof.
  unfold Password.getRandomValues. cbn [fst snd].
  rewrite length_map, length_seq. repeat split.
  apply Forall_forall. intros r Hr.
  apply list_elem_of_In, in_map_iff in Hr as (i & <- & _). apply toUint32_nonneg.
Qed.

Lemma buildCharset_nonempty (o : Password.options) :
  (0 < String.length (Password.buildCharset o))%nat.
Proof. destruct o as [n [] [] [] []]; vm_compute; lia. Qed.

Lemma incl_by_compute (small big : list ascii) :
  forallb (fun c => existsb (Ascii.eqb c) big) small = true ->
  forall c, In c small -> In c big.
Proof.
  intros H c Hc. rewrite forallb_forall in H.
  specialize (H c Hc). apply existsb_exists in H as (d & Hd & E).
  apply Ascii.eqb_eq in E. subst. exact Hd.
Qed.

(** The characters of a selected type belong to the charset in use. *)
Lemma selected_in_charset (o : Password.options) :
  (Password.uppercase o = true ->
   forall c, charIn Password.uppercaseChars c -> charIn (Password.buildCharset o) c) /\
  (Password.lowercase o = true ->
   forall c, charIn Password.lowercaseChars c -> charIn (Password.buildCharset o) c) /\
  (Password.numbers o = true ->
   forall c, charIn Password.numberChars c -> charIn (Password.buildCharset o) c) /\
  (Password.symbols o = true ->
   forall c, charIn Password.symbolChars c -> charIn (Password.buildCharset o) c).
Proof.
  unfold charIn.
  destruct o as [n [] [] [] []];
    cbn [Password.uppercase Password.lowercase Password.numbers Password.symbols];
    repeat split; intros Hsel; try discriminate Hsel;
    apply incl_by_compute; vm_compute; reflexivity.
Qed.

Lemma drawPassword_spec (charset : string) (values : list Z) :
  (0 < String.length charset)%nat -> Forall (fun r => 0 <= r) values ->
  String.length (Password.drawPassword charset values) = length values /\
  forall c, charIn (Password.drawPassword charset values) c -> charIn charset c.
Proof.
  intros Hlen Hvalues. unfold Password.drawPassword.
  assert (Hgen : forall acc,
             String.length (fold_left
               (fun password r =>
                  Password.appendIndexed password charset
                    (Z.rem r (Z.of_nat (String.length charset)))) values acc)
             = (String.length acc + length values)%nat /\
             forall c, charIn (fold_left
               (fun password r =>
                  Password.appendIndexed password charset
                    (Z.rem r (Z.of_nat (String.length charset)))) values acc) c ->
                       charIn acc c \/ charIn charset c).
  { induction Hvalues as [|r values Hr _ IH]; intros acc; cbn [fold_left length].
    - split; [lia | auto].
    - destruct (pick_in_charset charset r Hlen Hr) as (c & Hc & Hin).
      unfold Password.appendIndexed at 2 4. rewrite Hc.
      destruct (IH (String.append acc (String c EmptyString))) as [IHl IHc].
      split.
      + rewrite IHl, length_append. cbn [String.length]. lia.
      + intros d Hd. destruct (IHc d Hd) as [Hacc|Hcs]; [|auto].
        apply charIn_append in Hacc as [Hacc|Hone]; [auto|].
        right. destruct Hone as [<-|[]]. exact Hin. }
  destruct (Hgen EmptyString) as [Hl Hc]. split; [exact Hl|].
  intros c Hin. destruct (Hc c Hin) as [[]|H]; exact H.
Qed.

Lemma insert_In (l : list ascii) (i : nat) (c x : ascii) :
  In x (<[i := c]> l) -> x = c \/ In x l.
Proof.
  revert i. induction l as [|a r IH]; intros i; [cbn; tauto|].
  destruct i as [|i]; cbn [insert list_insert In]; [intuition congruence|].
  intros [->|H]; [auto|]. destruct (IH i H); auto.
Qed.

Lemma mismatches_insert (l0 l : list ascii) (i : nat) (c : ascii) :
  (mismatches l0 (<[i := c]> l) <= S (mismatches l0 l))%nat.
Proof.
  revert l0 i. induction l as [|a r IH]; intros l0 i; [destruct l0, i; cbn; lia|].
  destruct l0 as [|b l0]; [cbn; lia|].
  destruct i as [|i].
  - change (<[0%nat := c]> (a :: r)) with (c :: r). cbn [mismatches].
    destruct (Ascii.eqb b c), (Ascii.eqb b a); lia.
  - change (<[S i := c]> (a :: r)) with (a :: <[i := c]> r). cbn [mismatches].
    specialize (IH l0 i). destruct (Ascii.eqb b a); lia.
Qed.

Lemma mismatches_refl (l : list ascii) : mismatches l l = O.
Proof.
  induction l as [|a r IH]; cbn [mismatches]; [reflexivity|].
  rewrite Ascii.eqb_refl, IH. reflexivity.
Qed.

Lemma mismatches_zero (l k : list ascii) :
  length l = length k -> mismatches l k = O -> l = k.
Proof.
  revert k. induction l as [|a r IH]; intros [|b k] Hlen Hm; try discriminate Hlen;
    [reflexivity|].
  cbn [mismatches] in Hm. destruct (Ascii.eqb a b) eqn:E; [|lia].
  apply Ascii.eqb_eq in E. subst. f_equal. apply IH; [cbn in Hlen; lia | lia].
Qed.

(** One step of [ensureCharacterTypes]: the length stays, a new character
    comes from the set of the type, and at most one position changes, and
    only when the type is selected and missing. *)
Lemma ensureType_spec (selected : bool) (typeChars password : string)
      (randomPos : list Z) (chars chars' : list ascii) (posIndex posIndex' : nat)
      (rand : nat -> Z) (cursor cursor' : nat) :
  Password.ensureType selected typeChars password randomPos (chars, posIndex) rand cursor
  = ((chars', posIndex'), cursor') ->
  length chars' = length chars /\
  (forall x, In x chars' -> In x chars \/ (selected = true /\ charIn typeChars x)) /\
  (forall l0, (mismatches l0 chars'
               <= mismatches l0 chars
                  + (if selected && negb (Password.containsAny password typeChars)
                     then 1 else 0))%nat).
Proof.
  unfold Password.ensureType.
  destruct (selected && negb (Password.containsAny password typeChars)) eqn:Hcond.
  - apply andb_true_iff in Hcond as [Hsel _].
    unfold Password.getRandomChar, Password.getRandomValues. cbn [seq map nth].
    destruct (charAt typeChars _) as [c|] eqn:Hc.
    + intros H. injection H as <- _ _.
      assert (Hin : charIn typeChars c).
      { unfold charIn. clear -Hc. revert Hc.
        generalize (Z.to_nat (Z.rem (toUint32 (rand cursor)) (Z.of_nat (String.length typeChars)))).
        induction typeChars as [|d r IH]; intros [|i] H; cbn [charAt] in H; try discriminate H.
        - injection H as ->. left. reflexivity.
        - right. exact (IH i H). }
      destruct (String.length password =? 0)%nat.
      * repeat split; [auto | intros; lia].
      * split; [apply length_insert|]. split.
        -- intros x Hx. apply insert_In in Hx as [->|Hx]; auto.
        -- intros l0. pose proof (mismatches_insert l0 chars
                                    (Z.to_nat (Z.rem (nth posIndex randomPos 0)
                                                     (Z.of_nat (String.length password)))) c).
           lia.
    + intros H. injection H as <- _ _. repeat split; [auto | intros; lia].
  - intros H. injection H as <- _ _. repeat split; [auto | intros; lia].
Qed.

Lemma ensureCharacterTypes_spec (password : string) (o : Password.options)
      (rand : nat -> Z) (cursor : nat) :
  let result := fst (Password.ensureCharacterTypes password o rand cursor) in
  String.length result = String.length password /\
  (forall x, charIn result x -> charIn password x \/ charIn (Password.buildCharset o) x) /\
  (mismatches (list_ascii_of_string password) (list_ascii_of_string result)
   <= missingTypes o password)%nat.
Proof.
  cbv zeta. unfold Password.ensureCharacterTypes.
  destruct (Password.getRandomValues 4 rand cursor) as [randomPos c0].
  destruct (Password.ensureType (Password.uppercase o) Password.uppercaseChars password
              randomPos (list_ascii_of_string password, O) rand c0)
    as [[ch1 p1] c1] eqn:E1.
  destruct (Password.ensureType (Password.lowercase o) Password.lowercaseChars password
              randomPos (ch1, p1) rand c1) as [[ch2 p2] c2] eqn:E2.
  destruct (Password.ensureType (Password.numbers o) Password.numberChars password
              randomPos (ch2, p2) rand c2) as [[ch3 p3] c3] eqn:E3.
  destruct (Password.ensureType (Password.symbols o) Password.symbolChars password
              randomPos (ch3, p3) rand c3) as [[ch4 p4] c4] eqn:E4.
  cbn [fst].
  apply ensureType_spec in E1 as (L1 & I1 & M1).
  apply ensureType_spec in E2 as (L2 & I2 & M2).
  apply ensureType_spec in E3 as (L3 & I3 & M3).
  apply ensureType_spec in E4 as (L4 & I4 & M4).
  destruct (selected_in_charset o) as (SU & SL & SN & SS).
  unfold charIn in *. rewrite list_ascii_of_string_of_list_ascii.
  split; [|split].
  - rewrite !string_length_chars, list_ascii_of_string_of_list_ascii. congruence.
  - intros x Hx.
    destruct (I4 x Hx) as [H4|[Hs Hin]]; [|right; exact (SS Hs x Hin)].
    destruct (I3 x H4) as [H3|[Hs Hin]]; [|right; exact (SN Hs x Hin)].
    destruct (I2 x H3) as [H2|[Hs Hin]]; [|right; exact (SL Hs x Hin)].
    destruct (I1 x H2) as [H1|[Hs Hin]]; [|right; exact (SU Hs x Hin)].
    left. exact H1.
  - specialize (M1 (list_ascii_of_string password)).
    specialize (M2 (list_ascii_of_string password)).
    specialize (M3 (list_ascii_of_string password)).
    specialize (M4 (list_ascii_of_string password)).
    rewrite mismatches_refl in M1. unfold missingTypes. lia.
Qed.

(** X18. For a length between 0 and 16384, [generatePassword] returns a
    password of exactly that length whose characters all belong to the
    charset of the selected types (the lower-case letters when no type is
    selected), whatever the random values are; a negative length or one
    above 16384 makes it throw. *)
Theorem generatePassword_length_and_charset
  (o : Password.options) (rand : nat -> Z) (cursor : nat) :
  (0 <= Password.length o <= 16384 ->
   exists password cursor',
     Password.generatePassword o rand cursor = (Some password, cursor') /\
     Z.of_nat (String.length password) = Password.length o /\
     forall c, charIn password c -> charIn (Password.buildCharset o) c) /\
  (Password.length o < 0 \/ 16384 < Password.length o ->
   Password.generatePassword o rand cursor = (None, cursor)).
Proof.
  unfold Password.generatePassword. split.
  - intros Hrange.
    replace (Password.length o <? 0) with false by (symmetry; apply Z.ltb_ge; lia).
    replace (16384 <? Password.length o) with false by (symmetry; apply Z.ltb_ge; lia).
    cbn [orb].
    destruct (getRandomValues_spec (Z.to_nat (Password.length o)) rand cursor)
      as (Hn & Hpos & _).
    destruct (Password.getRandomValues (Z.to_nat (Password.length o)) rand cursor)
      as [values c1]. cbn [fst] in Hn, Hpos.
    destruct (drawPassword_spec (Password.buildCharset o) values
                (buildCharset_nonempty o) Hpos) as [Hlen Hin].
    destruct (ensureCharacterTypes_spec
                (Password.drawPassword (Password.buildCharset o) values) o rand c1)
      as (Hl & Hc & _).
    destruct (Password.ensureCharacterTypes _ o rand c1) as [password' c2].
    cbn [fst] in Hl, Hc.
    exists password', c2. split; [reflexivity|]. split; [lia|].
    intros c Hcin. destruct (Hc c Hcin); auto.
  - intros Hout.
    destruct (Password.length o <? 0) eqn:E1; [reflexivity|].
    destruct (16384 <? Password.length o) eqn:E2; [reflexivity|].
    apply Z.ltb_ge in E1, E2. lia.
Qed.

Lemma generatePassword_length_and_charset_witness :
  exists password cursor',
    Password.generatePassword Password.DEFAULT_OPTIONS
      (fun i => Z.of_nat i * 2654435761 + 12345) 0%nat = (Some password, cursor') /\
    Z.of_nat (String.length password) = 12.
Proof.
  destruct (generatePassword_length_and_charset Password.DEFAULT_OPTIONS
              (fun i => Z.of_nat i * 2654435761 + 12345) 0%nat) as [Hok _].
  destruct Hok as (password & cursor' & Hrun & Hlen & _).
  - vm_compute. split; congruence.
  - exists password, cursor'. split; assumption.
Defined.

(** X19. The step that repairs the random draw keeps its length and
    changes at most one position for each selected type of which the draw
    has no character; a draw that already holds every selected type is
    returned as it is. *)
Theorem ensureCharacterTypes_changes_little
  (password : string) (o : Password.options) (rand : nat -> Z) (cursor : nat) :
  let result := fst (Password.ensureCharacterTypes password o rand cursor) in
  String.length result = String.length password /\
  (mismatches (list_ascii_of_string password) (list_ascii_of_string result)
   <= missingTypes o password)%nat /\
  (missingTypes o password = O -> result = password).
Proof.
  cbv zeta.
  destruct (ensureCharacterTypes_spec password o rand cursor) as (Hl & _ & Hm).
  split; [exact Hl|]. split; [exact Hm|].
  intros Hzero. rewrite Hzero in Hm.
  set (result := fst (Password.ensureCharacterTypes password o rand cursor)) in *.
  assert (Hchars : list_ascii_of_string password = list_ascii_of_string result).
  { apply mismatches_zero; [|lia]. rewrite <- !string_length_chars. congruence. }
  rewrite <- (string_of_list_ascii_of_string result), <- Hchars.
  apply string_of_list_ascii_of_string.
Qed.

Lemma ensureCharacterTypes_changes_little_witness :
  fst (Password.ensureCharacterTypes "aB3!" Password.DEFAULT_OPTIONS (fun i => 26) 0%nat)
  = "aB3!".
Proof.
  apply (ensureCharacterTypes_changes_little "aB3!" Password.DEFAULT_OPTIONS
           (fun i => 26) 0%nat).
  reflexivity.
Defined.

(** ** Codes of different widths *)

(** X20. Codes of different widths for the same secret and time agree:
    the code with fewer digits is the code with more digits read modulo
    the smaller power of ten, that is, its last digits. *)
Theorem generateTOTP_shorter_code_is_suffix
  (now d1 d2 : Z) (secret : string) (period : option number) (timestamp : option Z)
  (s1 s2 : string) :
  0 < d1 <= d2 ->
  Totp.generateTOTP now secret (Totp.Options period (Some (Int d1)) timestamp)
  = Return (Totp.Digits s1) ->
  Totp.generateTOTP now secret (Totp.Options period (Some (Int d2)) timestamp)
  = Return (Totp.Digits s2) ->
  decimalValue 0 s1 = decimalValue 0 s2 mod 10 ^ d1.
Proof.
  intros Hd H1 H2.
  destruct (Totp.base32Decode secret) as [key|e] eqn:Hkey.
  2:{ unfold Totp.generateTOTP in H1. rewrite Hkey in H1. discriminate H1. }
  rewrite (generateTOTP_decoded now secret _ key Hkey) in H1.
  rewrite (generateTOTP_decoded now secret _ key Hkey) in H2.
  destruct key as [|k0 key]; [discriminate H1|].
  unfold counterBytes in H1, H2. cbn [Totp.optPeriod Totp.optTimestamp Totp.optDigits] in H1, H2.
  set (digest := WebCrypto.hmac (k0 :: key) _) in *.
  destruct (hmac_digest (k0 :: key)
              (Totp.numberToBytes
                 (Totp.stepCounter (default now timestamp) (default (Int 30) period))))
    as [Hlen Hbytes].
  fold digest in Hlen, Hbytes.
  destruct (dynamicTruncation_spec digest Hlen Hbytes) as (_ & _ & Hrange).
  change (default (Int 6) (Some (Int d1))) with (Int d1) in H1.
  change (default (Int 6) (Some (Int d2))) with (Int d2) in H2.
  destruct (renderOtp_digits (Totp.dynamicTruncation digest) d1 _ Hrange ltac:(lia) H1)
    as (t1 & E1 & _ & _ & _ & V1).
  destruct (renderOtp_digits (Totp.dynamicTruncation digest) d2 _ Hrange ltac:(lia) H2)
    as (t2 & E2 & _ & _ & _ & V2).
  injection E1 as <-. injection E2 as <-.
  rewrite V1, V2.
  replace d2 with (d1 + (d2 - d1)) by lia.
  rewrite Z.pow_add_r by lia.
  rewrite Z.rem_mul_r by (try apply Z.pow_pos_nonneg; lia).
  rewrite (Z.mul_comm (10 ^ d1) (_ mod _)), Z_mod_plus_full.
  rewrite Z.mod_mod by (apply Z.pow_nonzero; lia). reflexivity.
Qed.

Lemma generateTOTP_shorter_code_is_suffix_witness :
  decimalValue 0 "287082" = decimalValue 0 "94287082" mod 10 ^ 6.
Proof.
  apply (generateTOTP_shorter_code_is_suffix 0 6 8 "GEZDGNBVGY3TQOJQGEZDGNBVGY3TQOJQ"
           None (Some 59000) "287082" "94287082").
  - lia.
  - vm_compute. reflexivity.
  - vm_compute. reflexivity.
Defined.
